(** * The from-scratch LSTM of the "Understanding LSTMs" notebook

    A shallow embedding of the two classes of the notebook, [LSTMCell] and
    [LSTMLayer], together with the fragment of Python and of the torch
    tensor library their [forward] methods run on:

    - Python values, tuple unpacking, indexing, exceptions and the lookup of
      a free name in the module namespace;
    - torch tensors as a shape and a row-major buffer, with [nn.Linear],
      broadcasting arithmetic, [chunk], [unbind] and [stack].

    Scalar (floating point) arithmetic is kept abstract: every result holds
    for any interpretation of [+], [*], [sigmoid] and [tanh]. *)

From stdpp Require Import base gmap strings list.
From Stdlib Require Import ZArith.

Set Default Proof Using "Type".
Set Warnings "-register-all".
Local Open Scope string_scope.
Local Open Scope nat_scope.
Local Open Scope list_scope.

(** ** Python exceptions and results *)

Inductive runtime_reason :=
  | ShapeMismatch      (* sizes that cannot be multiplied, broadcast or stacked *)
  | EmptyTensorList.   (* "stack expects a non-empty TensorList" *)

Inductive exn :=
  | NameError (name : string)
  | TypeError
  | ValueError
  | IndexError
  | RuntimeError (why : runtime_reason)
  | SystemError.

Inductive res (A : Type) :=
  | Ok (a : A)
  | Raise (e : exn).
Arguments Ok {A} a.
Arguments Raise {A} e.

#[global] Instance res_ret : MRet res := λ A a, Ok a.
#[global] Instance res_bind : MBind res := λ A B f m,
  match m with
  | Ok a => f a
  | Raise e => Raise e
  end.
#[global] Instance res_fmap : FMap res := λ A B f m,
  match m with
  | Ok a => Ok (f a)
  | Raise e => Raise e
  end.

Definition is_ok {A} (r : res A) : bool :=
  match r with Ok _ => true | Raise _ => false end.

Definition from_option {A} (e : exn) (o : option A) : res A :=
  match o with Some a => Ok a | None => Raise e end.

#[global] Instance runtime_reason_eq_dec : EqDecision runtime_reason.
Proof. solve_decision. Defined.
#[global] Instance exn_eq_dec : EqDecision exn.
Proof. solve_decision. Defined.

(** ** Scalars

    The element type of a tensor and the four scalar operations the cell
    uses. torch evaluates them in floating point; the model leaves them
    uninterpreted. *)

Class Scalar (R : Type) := {
  s_add : R → R → R;
  s_mul : R → R → R;
  s_sigmoid : R → R;
  s_tanh : R → R;
}.

(** ** Buffers *)

(** Number of elements of a shape. *)
Definition numel (s : list nat) : nat := foldr Nat.mul 1 s.

(** The [i]-th block of [sz] consecutive elements of a buffer. *)
Definition block {A} (sz i : nat) (d : list A) : list A :=
  take sz (drop (i * sz) d).

(** The first [n] blocks of size [sz]. *)
Definition blocks {A} (n sz : nat) (d : list A) : list (list A) :=
  (λ i, block sz i d) <$> seq 0 n.

(** ** Tensors *)

Record tensor (R : Type) := Tensor {
  shape : list nat;
  data : list R;
}.
Arguments Tensor {R} shape data.
Arguments shape {R} t.
Arguments data {R} t.

Definition tensor_wf {R} (t : tensor R) : Prop :=
  length (data t) = numel (shape t).

#[global] Instance tensor_wf_dec {R} (t : tensor R) : Decision (tensor_wf t).
Proof. unfold tensor_wf. apply _. Defined.

#[global] Instance tensor_eq_dec {R} `{EqDecision R} : EqDecision (tensor R).
Proof. solve_decision. Defined.

(** ** Python values

    What the two [forward] methods can be handed: a tensor, a tuple, or any
    other object (a module, a class, an instance), which is opaque here.
    The type is parametric in what stands for a tensor: the tensor itself,
    or a reference to it in a store. *)

Inductive pyvalue (T : Type) :=
  | VTensor (t : T)
  | VTuple (vs : list (pyvalue T))
  | VOpaque (name : string).
Arguments VTensor {T} t.
Arguments VTuple {T} vs.
Arguments VOpaque {T} name.

Abbreviation value R := (pyvalue (tensor R)).

Section torch.
Context {R : Type} `{Scalar R}.

(** *** Shapes and broadcasting *)

(** One step of the broadcasting rule on a pair of sizes. *)
Definition bdim (x y : nat) : option nat :=
  if decide (x = y) then Some x
  else if decide (x = 1) then Some y
  else if decide (y = 1) then Some x
  else None.

(** Broadcasting of two shapes given innermost dimension first. *)
Fixpoint bshape_rev (a b : list nat) : option (list nat) :=
  match a, b with
  | [], _ => Some b
  | _, [] => Some a
  | x :: a', y :: b' =>
      d ← bdim x y; r ← bshape_rev a' b'; Some (d :: r)
  end.

Definition broadcast_shapes (a b : list nat) : option (list nat) :=
  reverse <$> bshape_rev (reverse a) (reverse b).

(** A shape padded with leading ones up to the rank of [to]. *)
Definition pad_shape (from to : list nat) : list nat :=
  replicate (length to - length from) 1 ++ from.

(** The buffer of a tensor of shape [from] expanded to shape [to], both
    of the same rank: a dimension of size one is repeated. *)
Fixpoint expand_to (from to : list nat) (d : list R) : list R :=
  match to, from with
  | n :: to', m :: from' =>
      if decide (m = n)
      then mjoin ((λ i, expand_to from' to' (block (numel from') i d)) <$> seq 0 n)
      else mjoin (replicate n (expand_to from' to' d))
  | _, _ => d
  end.

(** Elementwise binary operation with broadcasting ([a + b], [a * b]). *)
Definition tensor_zip (f : R → R → R) (a b : tensor R) : res (tensor R) :=
  match broadcast_shapes (shape a) (shape b) with
  | None => Raise (RuntimeError ShapeMismatch)
  | Some s =>
      Ok (Tensor s (zip_with f
            (expand_to (pad_shape (shape a) s) s (data a))
            (expand_to (pad_shape (shape b) s) s (data b))))
  end.

Definition tensor_add : tensor R → tensor R → res (tensor R) := tensor_zip s_add.
Definition tensor_mul : tensor R → tensor R → res (tensor R) := tensor_zip s_mul.

(** Elementwise unary operation ([torch.sigmoid], [torch.tanh]). *)
Definition tensor_map (f : R → R) (a : tensor R) : tensor R :=
  Tensor (shape a) (f <$> data a).

Definition sigmoid : tensor R → tensor R := tensor_map s_sigmoid.
Definition tanh : tensor R → tensor R := tensor_map s_tanh.

(** *** Slicing along the first two dimensions *)

(** [t[i]]: the [i]-th slice along dimension 0 of a tensor of rank >= 1. *)
Definition select0 (t : tensor R) (i : nat) : tensor R :=
  Tensor (tail (shape t)) (block (numel (tail (shape t))) i (data t)).

(** [t.narrow(1, start, len)] on a tensor of shape [d0 :: d1 :: rest]. *)
Definition narrow1 (d0 d1 : nat) (rest : list nat) (start len : nat)
    (d : list R) : tensor R :=
  Tensor (d0 :: len :: rest)
    (mjoin ((λ i, take (len * numel rest) (drop ((i * d1 + start) * numel rest) d))
               <$> seq 0 d0)).

(** [t.select(1, j)] on a tensor of shape [d0 :: d1 :: rest]. *)
Definition select1 (d0 d1 : nat) (rest : list nat) (j : nat)
    (d : list R) : tensor R :=
  Tensor (d0 :: rest)
    (mjoin ((λ i, block (numel rest) (i * d1 + j) d) <$> seq 0 d0)).

(** [t.chunk(chunks, 1)]: pieces of [ceil(d1 / chunks)] columns, the last
    one possibly shorter, so that fewer than [chunks] pieces may come
    back; a dimension of size zero gives [chunks] empty pieces. *)
Definition chunk1 (t : tensor R) (chunks : nat) : res (list (tensor R)) :=
  match shape t with
  | d0 :: d1 :: rest =>
      let split_size := (d1 + chunks - 1) / chunks in
      if decide (split_size = 0)
      then Ok (replicate chunks (narrow1 d0 d1 rest 0 0 (data t)))
      else
        let n := (d1 + split_size - 1) / split_size in
        Ok ((λ k, narrow1 d0 d1 rest (k * split_size)
                    (Nat.min split_size (d1 - k * split_size)) (data t))
              <$> seq 0 n)
  | _ => Raise IndexError
  end.

(** [t.unbind(1)]: the tuple of the slices along dimension 1. *)
Definition unbind1 (t : tensor R) : res (list (tensor R)) :=
  match shape t with
  | d0 :: d1 :: rest => Ok ((λ j, select1 d0 d1 rest j (data t)) <$> seq 0 d1)
  | _ => Raise IndexError
  end.

(** [torch.stack(ts, dim=1)]. *)
Definition stack1 (ts : list (tensor R)) : res (tensor R) :=
  match ts with
  | [] => Raise (RuntimeError EmptyTensorList)
  | t0 :: _ =>
      match shape t0 with
      | [] => Raise IndexError
      | d0 :: rest =>
          if decide (Forall (λ t, shape t = shape t0) ts)
          then Ok (Tensor (d0 :: length ts :: rest)
                     (mjoin ((λ i, mjoin ((λ t, block (numel rest) i (data t)) <$> ts))
                                <$> seq 0 d0)))
          else Raise (RuntimeError ShapeMismatch)
      end
  end.
End torch.

(** ** [nn.Linear] *)

(** The parameters of an [nn.Linear(in_features, out_features)] module:
    [weight] of shape [out_features, in_features] and [bias] of shape
    [out_features]. *)
Record Linear (R : Type) := mkLinear {
  weight : tensor R;
  bias : tensor R;
}.
Arguments mkLinear {R} weight bias.
Arguments weight {R} l.
Arguments bias {R} l.

Definition Linear_wf {R} (in_features out_features : nat) (l : Linear R) : Prop :=
  shape (weight l) = [out_features; in_features] ∧ tensor_wf (weight l) ∧
  shape (bias l) = [out_features] ∧ tensor_wf (bias l).

Section python.
Context {R : Type} `{Scalar R}.

(** One output feature: [b + sum_k x_k * w_k], accumulated left to right. *)
Definition affine_row (x w : list R) (b : R) : R :=
  foldl (λ acc p, s_add acc (s_mul p.1 p.2)) b (zip x w).

(** [F.linear(x, weight, bias)] on a tensor [x] of shape [(..., in)]. *)
Definition linear (l : Linear R) (x : tensor R) : res (tensor R) :=
  match reverse (shape x), shape (weight l) with
  | last_dim :: lead_rev, [out_f; in_f] =>
      if decide (last_dim = in_f)
      then
        let rows := blocks (numel lead_rev) in_f (data x) in
        let wrows := blocks out_f in_f (data (weight l)) in
        Ok (Tensor (reverse lead_rev ++ [out_f])
              (mjoin ((λ r, zip_with (affine_row r) wrows (data (bias l))) <$> rows)))
      else Raise (RuntimeError ShapeMismatch)
  | _, _ => Raise (RuntimeError ShapeMismatch)
  end.

(** Calling an [nn.Linear] module on a Python value. *)
Definition Linear_call (l : Linear R) (x : value R) : res (tensor R) :=
  match x with
  | VTensor t => linear l t
  | _ => Raise TypeError
  end.

(** *** Python: unpacking, indexing, names *)

(** [a, b = v]: a tuple of two items, or a tensor whose first dimension
    has size two (iteration yields its slices). *)
Definition unpack2 (v : value R) : res (value R * value R) :=
  match v with
  | VTuple [a; b] => Ok (a, b)
  | VTuple _ => Raise ValueError
  | VTensor t =>
      match shape t with
      | [] => Raise TypeError
      | d0 :: _ =>
          if decide (d0 = 2)
          then Ok (VTensor (select0 t 0), VTensor (select0 t 1))
          else Raise ValueError
      end
  | VOpaque _ => Raise TypeError
  end.

(** [xs[i]] on a tuple or list. *)
Definition getitem {A} (xs : list A) (i : nat) : res A :=
  from_option IndexError (xs !! i).

(** A free name of a function body is looked up in the globals of its
    module when the line runs. *)
Definition load_global (G : gmap string (value R)) (name : string) : res (value R) :=
  from_option (NameError name) (G !! name).

(** A tensor operand of an arithmetic operator. *)
Definition as_tensor (v : value R) : res (tensor R) :=
  match v with
  | VTensor t => Ok t
  | _ => Raise TypeError
  end.

(** The module namespace once every code cell of the notebook has run:
    the two imports, the two classes and the instance [lstm]. *)
Definition notebook_globals : gmap string (value R) :=
  {[ "torch" := VOpaque "module torch";
     "nn" := VOpaque "module torch.nn";
     "LSTMCell" := VOpaque "class LSTMCell";
     "LSTMLayer" := VOpaque "class LSTMLayer";
     "lstm" := VOpaque "LSTMLayer instance" ]}.

(** ** [LSTMCell] *)

Record LSTMCell := mkLSTMCell {
  input_layer : Linear R;
  hidden_layer : Linear R;
}.

(** What [LSTMCell.__init__(input_dim, hidden_dim)] sets up, whatever
    values the parameters are initialised to. *)
Definition LSTMCell_wf (input_dim hidden_dim : nat) (self : LSTMCell) : Prop :=
  Linear_wf input_dim (4 * hidden_dim) (input_layer self) ∧
  Linear_wf hidden_dim (4 * hidden_dim) (hidden_layer self).

(** Lines 179-190 of the cell: from the pre-activation [weights] and the
    previous cell state to the returned triple. *)
Definition LSTMCell_gates (weights : tensor R) (previous_cell_state : value R)
    : res (value R) :=
  gates ← chunk1 weights 4;
  g0 ← getitem gates 0;
  let input_gate := sigmoid g0 in
  g1 ← getitem gates 1;
  let forget_gate := sigmoid g1 in
  g2 ← getitem gates 2;
  let output_gate := sigmoid g2 in
  g3 ← getitem gates 3;
  let cell_gate := tanh g3 in
  c ← as_tensor previous_cell_state;
  fc ← tensor_mul forget_gate c;
  ig ← tensor_mul input_gate cell_gate;
  new_cell ← tensor_add fc ig;
  new_hidden ← tensor_mul output_gate (tanh new_cell);
  Ok (VTuple [VTensor new_hidden; VTuple [VTensor new_hidden; VTensor new_cell]]).

(** [LSTMCell.forward(self, current_input, previous_state)], run with [G]
    as the globals of the module. The unpacked [previous_hidden_state] is
    never read: line 177 names [previous_hidden], which is not a local. *)
Definition LSTMCell_forward (G : gmap string (value R)) (self : LSTMCell)
    (current_input previous_state : value R) : res (value R) :=
  '(previous_hidden_state, previous_cell_state) ← unpack2 previous_state;
  a ← Linear_call (input_layer self) current_input;
  previous_hidden ← load_global G "previous_hidden";
  b ← Linear_call (hidden_layer self) previous_hidden;
  weights ← tensor_add a b;
  LSTMCell_gates weights previous_cell_state.

End python.
Arguments LSTMCell R : clear implicits.
Arguments mkLSTMCell {R} input_layer hidden_layer.

(** ** Matrices *)

(** Entry [(i, j)] of a matrix with [N] columns. *)
Definition entry {R} (N : nat) (t : tensor R) (i j : nat) : option R :=
  data t !! (i * N + j).

(** The four column blocks of a pre-activation of width [4 * Hd]. *)
Definition gate_block {R} (B Hd : nat) (w : tensor R) (k : nat) : tensor R :=
  narrow1 B (4 * Hd) [] (k * Hd) Hd (data w).

(** ** Calls into a module that may carry state

    [LSTMLayer] is handed the class of its cell; the instance it builds is
    called once per loop iteration. A computation of type [py C A] runs
    against the internal state [C] of that instance and either returns or
    raises. *)

Definition py (C A : Type) : Type := C → C * res A.

#[global] Instance py_ret {C} : MRet (py C) := λ A a c, (c, Ok a).
#[global] Instance py_bind {C} : MBind (py C) := λ A B f m c,
  match m c with
  | (c', Ok a) => f a c'
  | (c', Raise e) => (c', Raise e)
  end.

(** A pure computation, which leaves the module alone. *)
Definition lift {C A} (r : res A) : py C A := λ c, (c, r).

(** [for i in idxs: acc = body(i, acc)]. *)
Fixpoint for_loop {C A} (body : nat → A → py C A) (idxs : list nat) (acc : A) : py C A :=
  match idxs with
  | [] => mret acc
  | i :: idxs' => acc' ← body i acc; for_loop body idxs' acc'
  end.

Section layer.
Context {R : Type} `{Scalar R} {C : Type}.

(** The type of [self.cell(x, state)]. *)
Definition cell_fn : Type := value R → value R → py C (value R).

(** Lines 219-220: one iteration, on the loop variables [outputs] and
    [state]. *)
Definition loop_body (cell : cell_fn) (inputs : list (tensor R)) (i : nat)
    (acc : list (value R) * value R) : py C (list (value R) * value R) :=
  x ← lift (getitem inputs i);
  r ← cell (VTensor x) acc.2;
  '(output, state) ← lift (unpack2 r);
  mret (acc.1 ++ [output], state).

(** [torch.stack(outputs, dim=1)] on a Python list. *)
Definition stack_values (outputs : list (value R)) : res (tensor R) :=
  ts ← mapM as_tensor outputs;
  stack1 ts.

(** Line 222, on the loop variables the loop ends with. *)
Definition finish (acc : list (value R) * value R) : res (value R) :=
  o ← stack_values acc.1;
  Ok (VTuple [VTensor o; acc.2]).

(** [LSTMLayer.forward(self, input, state)] with [cell] as [self.cell]. *)
Definition LSTMLayer_forward (cell : cell_fn) (input : tensor R) (state : value R)
    : py C (value R) :=
  inputs ← lift (unbind1 input);
  acc ← for_loop (loop_body cell inputs) (seq 0 (length inputs)) ([], state);
  lift (finish acc).

(** The recurrence in the words of the specification: the cell is invoked
    on each input in turn with the state the previous invocation returned;
    [calls] lists the argument pairs in the order of the invocations,
    [outs] what each one emitted. *)
Inductive threaded (cell : cell_fn) :
    C → list (tensor R) → value R →
    list (value R * value R) → list (value R) → value R → C → Prop :=
  | threaded_nil c state :
      threaded cell c [] state [] [] state c
  | threaded_step c x xs state c1 r output state1 calls outs state' c' :
      cell (VTensor x) state c = (c1, Ok r) →
      unpack2 r = Ok (output, state1) →
      threaded cell c1 xs state1 calls outs state' c' →
      threaded cell c (x :: xs) state
        ((VTensor x, state) :: calls) (output :: outs) state' c'.

End layer.
Arguments cell_fn R C : clear implicits.

(** A cell that also records the arguments of every call it receives. *)
Definition logging {R C} (cell : cell_fn R C)
    : cell_fn R (C * list (value R * value R)) :=
  λ x state cl,
    let '(c', r) := cell x state cl.1 in
    ((c', cl.2 ++ [(x, state)]), r).

(** The cell of the notebook as the layer sees it: [LSTMCell] has no state
    of its own besides its parameters, which [forward] only reads. *)
Definition LSTMCell_call {R} `{Scalar R} (G : gmap string (value R))
    (self : LSTMCell R) : cell_fn R unit :=
  λ x state, lift (LSTMCell_forward G self x state).

(** * The cell on a store of tensor objects

    The same [forward], with tensors held in a store and passed around by
    reference, as Python does. Every torch operation the cell uses is
    out of place: it reads its operands and allocates its result. *)

Abbreviation heap R := (gmap nat (tensor R)).
Abbreviation rvalue := (pyvalue nat).

(** The value a reference stands for in a store. *)
Fixpoint read {R} (σ : heap R) (v : rvalue) : option (value R) :=
  match v with
  | VTensor l => VTensor <$> σ !! l
  | VTuple vs => VTuple <$> mapM (read σ) vs
  | VOpaque name => Some (VOpaque name)
  end.

Record RLinear := mkRLinear { rweight : nat; rbias : nat }.
Record RCell := mkRCell { rinput_layer : RLinear; rhidden_layer : RLinear }.

Definition read_linear {R} (σ : heap R) (l : RLinear) : option (Linear R) :=
  w ← σ !! rweight l; b ← σ !! rbias l; Some (mkLinear w b).

Definition read_cell {R} (σ : heap R) (self : RCell) : option (LSTMCell R) :=
  i ← read_linear σ (rinput_layer self);
  h ← read_linear σ (rhidden_layer self);
  Some (mkLSTMCell i h).

Section store.
Context {R : Type} `{Scalar R}.

(** A new tensor object. *)
Definition alloc (t : tensor R) : py (heap R) nat :=
  λ σ, let l := fresh (dom σ) in (<[l := t]> σ, Ok l).

(** The tensor behind a reference; a reference always resolves in Python,
    and [SystemError] stands for the case that cannot arise. *)
Definition deref (l : nat) : py (heap R) (tensor R) :=
  λ σ, (σ, from_option SystemError (σ !! l)).

Definition R_as_tensor (v : rvalue) : py (heap R) nat :=
  match v with
  | VTensor l => mret l
  | _ => lift (Raise TypeError)
  end.

(** An out-of-place operation on one tensor, and on two. *)
Definition R_op1 (f : tensor R → res (tensor R)) (l : nat) : py (heap R) nat :=
  t ← deref l; r ← lift (f t); alloc r.

Definition R_op2 (f : tensor R → tensor R → res (tensor R)) (l1 l2 : nat)
    : py (heap R) nat :=
  t1 ← deref l1; t2 ← deref l2; r ← lift (f t1 t2); alloc r.

Definition R_Linear_call (lin : RLinear) (x : rvalue) : py (heap R) nat :=
  match x with
  | VTensor l =>
      t ← deref l; w ← deref (rweight lin); b ← deref (rbias lin);
      r ← lift (linear (mkLinear w b) t); alloc r
  | _ => lift (Raise TypeError)
  end.

Definition R_unpack2 (v : rvalue) : py (heap R) (rvalue * rvalue) :=
  match v with
  | VTuple [a; b] => mret (a, b)
  | VTuple _ => lift (Raise ValueError)
  | VTensor l =>
      t ← deref l;
      match shape t with
      | [] => lift (Raise TypeError)
      | d0 :: _ =>
          if decide (d0 = 2)
          then l0 ← alloc (select0 t 0); l1 ← alloc (select0 t 1);
               mret (VTensor l0, VTensor l1)
          else lift (Raise ValueError)
      end
  | VOpaque _ => lift (Raise TypeError)
  end.

Definition R_load_global (G : gmap string rvalue) (name : string)
    : py (heap R) rvalue :=
  lift (from_option (NameError name) (G !! name)).

Definition R_chunk1 (l : nat) (chunks : nat) : py (heap R) (list nat) :=
  t ← deref l; ts ← lift (chunk1 t chunks); mapM alloc ts.

Definition R_LSTMCell_gates (weights : nat) (previous_cell_state : rvalue)
    : py (heap R) rvalue :=
  gates ← R_chunk1 weights 4;
  g0 ← lift (getitem gates 0);
  input_gate ← R_op1 (λ t, Ok (sigmoid t)) g0;
  g1 ← lift (getitem gates 1);
  forget_gate ← R_op1 (λ t, Ok (sigmoid t)) g1;
  g2 ← lift (getitem gates 2);
  output_gate ← R_op1 (λ t, Ok (sigmoid t)) g2;
  g3 ← lift (getitem gates 3);
  cell_gate ← R_op1 (λ t, Ok (tanh t)) g3;
  c ← R_as_tensor previous_cell_state;
  fc ← R_op2 tensor_mul forget_gate c;
  ig ← R_op2 tensor_mul input_gate cell_gate;
  new_cell ← R_op2 tensor_add fc ig;
  th ← R_op1 (λ t, Ok (tanh t)) new_cell;
  new_hidden ← R_op2 tensor_mul output_gate th;
  mret (VTuple [VTensor new_hidden; VTuple [VTensor new_hidden; VTensor new_cell]]).

Definition R_LSTMCell_forward (G : gmap string rvalue) (self : RCell)
    (current_input previous_state : rvalue) : py (heap R) rvalue :=
  '(previous_hidden_state, previous_cell_state) ← R_unpack2 previous_state;
  a ← R_Linear_call (rinput_layer self) current_input;
  previous_hidden ← R_load_global G "previous_hidden";
  b ← R_Linear_call (rhidden_layer self) previous_hidden;
  weights ← R_op2 tensor_add a b;
  R_LSTMCell_gates weights previous_cell_state.

End store.

(** [m], run on a store, does what the pure computation [p] does: both
    raise the same exception, or both return, related by [rel] in the
    store [m] ends with; and [m] only ever adds objects to the store. *)
Definition refines {R A B} (rel : heap R → A → B → Prop) (σ : heap R)
    (m : py (heap R) A) (p : res B) : Prop :=
  match m σ, p with
  | (σ', Ok a), Ok b => σ ⊆ σ' ∧ rel σ' a b
  | (σ', Raise e), Raise e' => σ ⊆ σ' ∧ e = e'
  | _, _ => False
  end.

Definition points_to {R} (σ : heap R) (l : nat) (t : tensor R) : Prop :=
  σ !! l = Some t.

Definition reads {R} (σ : heap R) (v : rvalue) (w : value R) : Prop :=
  read σ v = Some w.

(** The outcome of a call, with the returned references resolved. *)
Definition read_res {R} (σ : heap R) (r : res rvalue) : res (option (value R)) :=
  read σ <$> r.

(** Both components of an unpacked pair. *)
Definition reads2 {R} (σ : heap R) (v : rvalue * rvalue) (w : value R * value R)
    : Prop :=
  reads σ v.1 w.1 ∧ reads σ v.2 w.2.

(** * Concrete inputs

    Integer scalars stand in for floating point where a statement is
    evaluated on concrete tensors: [+] and [*] are those of [Z], [sigmoid]
    is the step function onto [{0, 1}] and [tanh] the sign function. *)

#[global] Instance Z_scalar : Scalar Z := {|
  s_add := Z.add;
  s_mul := Z.mul;
  s_sigmoid := λ z, if (z <? 0)%Z then 0%Z else 1%Z;
  s_tanh := Z.sgn;
|}.

(** A cell with [input_dim = 1] and [hidden_dim = 2]. *)
Definition ex_cell : LSTMCell Z :=
  mkLSTMCell
    (mkLinear (Tensor [8; 1] (replicate 8 1%Z)) (Tensor [8] (replicate 8 0%Z)))
    (mkLinear (Tensor [8; 2] (replicate 16 1%Z)) (Tensor [8] (replicate 8 0%Z))).

(** A cell with [input_dim = 1] and [hidden_dim = 1]. *)
Definition ex_cell1 : LSTMCell Z :=
  mkLSTMCell
    (mkLinear (Tensor [4; 1] [1; -1; 1; 2]%Z) (Tensor [4] [0; 0; 0; 0]%Z))
    (mkLinear (Tensor [4; 1] [1; 1; 1; 1]%Z) (Tensor [4] [0; 0; 0; 0]%Z)).

Definition ex_input : tensor Z := Tensor [1; 1] [0%Z].
Definition ex_hidden : tensor Z := Tensor [1; 2] [0; 0]%Z.
Definition ex_memory : tensor Z := Tensor [1; 2] [0; 0]%Z.



(** A sequence of two steps for [ex_cell1], batch size 1. *)
Definition ex_sequence : tensor Z := Tensor [1; 2; 1] [3; -4]%Z.
Definition ex_prefix : tensor Z := Tensor [1; 1; 1] [3%Z].
Definition ex_state1 : value Z :=
  VTuple [VTensor (Tensor [1; 1] [0%Z]); VTensor (Tensor [1; 1] [1%Z])].
Definition ex_globals1 : gmap string (value Z) :=
  <["previous_hidden" := VTensor (Tensor [1; 1] [2%Z])]> notebook_globals.


(** The two steps of [ex_cell1] on [ex_sequence] from [ex_state1]. *)
Definition ex_calls : list (value Z * value Z) :=
  [(VTensor (Tensor [1; 1] [3%Z]), ex_state1);
   (VTensor (Tensor [1; 1] [(-4)%Z]),
    VTuple [VTensor (Tensor [1; 1] [1%Z]); VTensor (Tensor [1; 1] [1%Z])])].
Definition ex_outputs : list (tensor Z) :=
  [Tensor [1; 1] [1%Z]; Tensor [1; 1] [0%Z]].
Definition ex_final_state : value Z :=
  VTuple [VTensor (Tensor [1; 1] [0%Z]); VTensor (Tensor [1; 1] [1%Z])].

(** A store holding the input, the state and the parameters of [ex_cell],
    and references into it. *)
Definition ex_heap : heap Z :=
  list_to_map
    [(0, ex_input); (1, ex_hidden); (2, ex_memory);
     (3, weight (input_layer ex_cell)); (4, bias (input_layer ex_cell));
     (5, weight (hidden_layer ex_cell)); (6, bias (hidden_layer ex_cell))].
Definition ex_rcell : RCell := mkRCell (mkRLinear 3 4) (mkRLinear 5 6).
Definition ex_rglobals : gmap string rvalue := {[ "previous_hidden" := VTensor 1 ]}.
Definition ex_rstate : rvalue := VTuple [VTensor 1; VTensor 2].

(** ** Construction

    [nn.Linear] draws its parameters at random; [draw k n] stands for the
    [n] values drawn for the [k]-th parameter tensor of a module. *)

Definition Linear_init {R} (draw_weight draw_bias : nat → list R)
    (in_features out_features : nat) : Linear R :=
  mkLinear (Tensor [out_features; in_features] (draw_weight (out_features * in_features)))
           (Tensor [out_features] (draw_bias out_features)).

(** [LSTMCell.__init__(self, input_dim, hidden_dim)]. *)
Definition LSTMCell_init {R} (draw : nat → nat → list R)
    (input_dim hidden_dim : nat) : LSTMCell R :=
  mkLSTMCell (Linear_init (draw 0) (draw 1) input_dim (4 * hidden_dim))
             (Linear_init (draw 2) (draw 3) hidden_dim (4 * hidden_dim)).

(** The class [LSTMCell] called on positional arguments: anything but two
    of them is a [TypeError]. *)
Definition LSTMCell_class {R} (draw : nat → nat → list R) (args : list nat)
    : res (LSTMCell R) :=
  match args with
  | [input_dim; hidden_dim] => Ok (LSTMCell_init draw input_dim hidden_dim)
  | _ => Raise TypeError
  end.

(** [LSTMLayer.__init__(self, cell, *cell_args)]: the layer holds the
    instance that the class [cell] builds from [cell_args], and nothing
    else. *)
Definition LSTMLayer_init {Cell} (cell : list nat → res Cell) (cell_args : list nat)
    : res Cell :=
  cell cell_args.

(** Line 233: [lstm = LSTMLayer(LSTMCell, 100, 100)]. *)
Definition lstm {R} (draw : nat → nat → list R) : res (LSTMCell R) :=
  LSTMLayer_init (LSTMCell_class draw) [100; 100].

(** A cell that emits its input and hands the state on unchanged. *)
Definition echo_cell {R C} : cell_fn R C :=
  λ x state, mret (VTuple [x; state]).

(** Two more cells for the concrete runs: one that returns its output
    alone instead of a pair, and a delay line that emits the state it is
    given and carries its input. *)
Definition ex_bare_cell : cell_fn Z unit := λ x _, mret x.
Definition ex_delay_cell : cell_fn Z unit := λ x state, mret (VTuple [state; x]).

Definition ex_step0 : tensor Z := Tensor [1; 1] [3%Z].
Definition ex_step1 : tensor Z := Tensor [1; 1] [(-4)%Z].
Definition ex_suffix : tensor Z := Tensor [1; 1; 1] [(-4)%Z].
Definition ex_mid_state : value Z :=
  VTuple [VTensor (Tensor [1; 1] [1%Z]); VTensor (Tensor [1; 1] [1%Z])].

(** ** Symbolic scalars

    Scalars that record the operations instead of carrying them out: a
    result shows which entries it was computed from, through which
    operations and in which roles. *)

Inductive term :=
  | Var (n : nat)
  | Add (a b : term)
  | Mul (a b : term)
  | Sigmoid (a : term)
  | Tanh (a : term).

#[global] Instance term_scalar : Scalar term := {|
  s_add := Add;
  s_mul := Mul;
  s_sigmoid := Sigmoid;
  s_tanh := Tanh;
|}.

(** A pre-activation of shape [(1, 4 * 2)] whose eight entries are the
    unknowns 0 to 7, and a memory of shape [(1, 2)] with the unknowns 8
    and 9. *)
Definition ex_preactivation : tensor term := Tensor [1; 8] (Var <$> seq 0 8).
Definition ex_sym_memory : tensor term := Tensor [1; 2] [Var 8; Var 9].

(** What lines 181-188 make of them. *)
Definition ex_sym_new_cell : tensor term :=
  Tensor [1; 2]
    [Add (Mul (Sigmoid (Var 2)) (Var 8)) (Mul (Sigmoid (Var 0)) (Tanh (Var 6)));
     Add (Mul (Sigmoid (Var 3)) (Var 9)) (Mul (Sigmoid (Var 1)) (Tanh (Var 7)))].
Definition ex_sym_new_hidden : tensor term :=
  Tensor [1; 2]
    [Mul (Sigmoid (Var 4))
       (Tanh (Add (Mul (Sigmoid (Var 2)) (Var 8))
                  (Mul (Sigmoid (Var 0)) (Tanh (Var 6)))));
     Mul (Sigmoid (Var 5))
       (Tanh (Add (Mul (Sigmoid (Var 3)) (Var 9))
                  (Mul (Sigmoid (Var 1)) (Tanh (Var 7)))))].


(** * Facts about buffers and the torch operations *)

Section buffers.
Context {A : Type}.
Implicit Types d : list A.

Lemma length_block sz i d :
  (i + 1) * sz ≤ length d → length (block sz i d) = sz.
Proof. intros Hle. unfold block. rewrite length_take, length_drop. lia. Qed.

Lemma join_blocks_from k n sz d :
  mjoin ((λ i, block sz i d) <$> seq k n) = take (n * sz) (drop (k * sz) d).
Proof.
  revert k. induction n as [|n IH]; intros k; [done|].
  cbn [seq fmap list_fmap]. change (mjoin (?x :: ?l)) with (x ++ mjoin l).
  rewrite IH. unfold block.
  replace (S k * sz) with (k * sz + sz) by lia.
  rewrite <-drop_drop, take_take_drop. f_equal.
Qed.

Lemma join_blocks n sz d : length d = n * sz → mjoin (blocks n sz d) = d.
Proof.
  intros Hlen. unfold blocks. rewrite join_blocks_from. simpl.
  rewrite drop_0. apply take_ge. lia.
Qed.

Lemma length_blocks n sz d : length (blocks n sz d) = n.
Proof. unfold blocks. by rewrite length_fmap, length_seq. Qed.

(** Reading a concatenation of rows of the same length. *)
Lemma lookup_join_rows n (ls : list (list A)) j i :
  Forall (λ l, length l = n) ls → i < n →
  mjoin ls !! (j * n + i) = ls !! j ≫= (.!! i).
Proof.
  intros Hall Hi. apply option_eq. intros x.
  rewrite join_lookup_Some_same_length' by done.
  destruct (ls !! j) as [l|]; simpl.
  - split; [by intros (l' & [= <-] & ?)|eauto].
  - split; [by intros (l' & [=] & _)|done].
Qed.

End buffers.

Lemma fmap_seq_ext {B} (f g : nat → B) k n :
  (∀ i, k ≤ i < k + n → f i = g i) → f <$> seq k n = g <$> seq k n.
Proof.
  intros Hfg. apply Forall_fmap_ext, Forall_forall.
  intros i Hi%elem_of_seq. by apply Hfg.
Qed.

Section torch_facts.
Context {R : Type} `{Scalar R}.
Implicit Types t a b : tensor R.

Lemma numel_cons n s : numel (n :: s) = n * numel s.
Proof. done. Qed.

Lemma numel_app s1 s2 : numel (s1 ++ s2) = numel s1 * numel s2.
Proof. induction s1 as [|n s1 IH]; simpl; [lia|]. rewrite IH. lia. Qed.

Lemma numel_reverse s : numel (reverse s) = numel s.
Proof.
  induction s as [|n s IH]; [done|].
  rewrite reverse_cons, numel_app, IH. simpl. lia.
Qed.

Lemma bshape_rev_same s : bshape_rev s s = Some s.
Proof.
  induction s as [|n s IH]; [done|]. simpl.
  unfold bdim. rewrite decide_True by done. simpl. by rewrite IH.
Qed.

Lemma broadcast_shapes_same s : broadcast_shapes s s = Some s.
Proof.
  unfold broadcast_shapes. rewrite bshape_rev_same. simpl.
  by rewrite reverse_involutive.
Qed.

Lemma pad_shape_same s : pad_shape s s = s.
Proof. unfold pad_shape. by rewrite Nat.sub_diag. Qed.

(** Expanding to the shape a buffer already has changes nothing. *)
Lemma expand_to_same s (d : list R) :
  length d = numel s → expand_to s s d = d.
Proof.
  revert d. induction s as [|n s IH]; intros d Hlen; [done|].
  simpl. rewrite decide_True by done.
  rewrite (fmap_seq_ext _ (λ i, block (numel s) i d)).
  - apply (join_blocks n). by rewrite Hlen.
  - intros i Hi. apply IH, length_block.
    rewrite Hlen, numel_cons. nia.
Qed.

(** On two well-formed tensors of one shape the elementwise operations
    are the pointwise ones. *)
Lemma tensor_zip_same_shape f a b :
  shape a = shape b → tensor_wf a → tensor_wf b →
  tensor_zip f a b = Ok (Tensor (shape a) (zip_with f (data a) (data b))).
Proof.
  unfold tensor_wf, tensor_zip. intros <- Ha Hb.
  rewrite broadcast_shapes_same, pad_shape_same.
  by rewrite !expand_to_same.
Qed.

Lemma tensor_map_wf f t : tensor_wf t → tensor_wf (tensor_map f t).
Proof. unfold tensor_wf. simpl. by rewrite length_fmap. Qed.

(** *** [nn.Linear] *)

Lemma linear_ok D O (l : Linear R) x lead :
  Linear_wf D O l → shape x = lead ++ [D] →
  ∃ t, linear l x = Ok t ∧ shape t = lead ++ [O] ∧ tensor_wf t.
Proof.
  intros (Hw & _ & Hb & Hbw) Hx. unfold linear.
  rewrite Hx, reverse_snoc, Hw, decide_True by done.
  eexists. split; [done|]. rewrite reverse_involutive. split; [done|].
  unfold tensor_wf in *. simpl.
  rewrite length_join, (sum_list_fmap_same O).
  - by rewrite length_fmap, length_blocks, numel_app, numel_reverse, Hb in *; simpl; lia.
  - apply Forall_fmap, Forall_true. intros r. simpl.
    rewrite length_zip_with, length_blocks, Hbw, Hb. simpl. lia.
Qed.


(** *** [chunk] of a matrix whose width is a multiple of four *)

Lemma chunk1_four B Hd (d : list R) :
  chunk1 (Tensor [B; 4 * Hd] d) 4
  = Ok ((λ k, narrow1 B (4 * Hd) [] (k * Hd) Hd d) <$> seq 0 4).
Proof.
  assert ((4 * Hd + 4 - 1) / 4 = Hd) as E1
    by (symmetry; apply Nat.div_unique with 3; lia).
  unfold chunk1. cbn [shape data]. cbv zeta. rewrite E1.
  destruct (decide (Hd = 0)) as [->|Hpos]; [done|].
  assert ((4 * Hd + Hd - 1) / Hd = 4) as E2
    by (symmetry; apply Nat.div_unique with (Hd - 1); lia).
  rewrite E2. f_equal. apply fmap_seq_ext. intros k Hk.
  assert (k * Hd ≤ 3 * Hd) by (apply Nat.mul_le_mono_r; lia).
  f_equal. lia.
Qed.

Lemma narrow1_wf B N start len (d : list R) :
  length d = B * N → start + len ≤ N →
  tensor_wf (narrow1 B N [] start len d).
Proof.
  intros Hd Hle. unfold tensor_wf, narrow1. simpl.
  rewrite length_join, (sum_list_fmap_same (len * 1)).
  - rewrite length_fmap, length_seq. lia.
  - apply Forall_fmap, Forall_forall. intros i Hi%elem_of_seq. simpl.
    rewrite length_take, length_drop. nia.
Qed.

Lemma entry_narrow1 B N start len (d : list R) i j :
  length d = B * N → start + len ≤ N → i < B → j < len →
  entry len (narrow1 B N [] start len d) i j
  = entry N (Tensor [B; N] d) i (start + j).
Proof.
  intros Hd Hle Hi Hj. unfold entry, narrow1. simpl.
  rewrite (lookup_join_rows len); [|
    apply Forall_fmap, Forall_forall; intros k Hk%elem_of_seq; simpl;
    rewrite length_take, length_drop; nia | done].
  rewrite list_lookup_fmap, lookup_seq_lt by done. simpl.
  rewrite lookup_take_lt by lia. rewrite lookup_drop. f_equal. lia.
Qed.

Lemma entry_zip_with N (f : R → R → R) a b i j :
  entry N (Tensor (shape a) (zip_with f (data a) (data b))) i j
  = (x ← entry N a i j; y ← entry N b i j; Some (f x y)).
Proof. unfold entry. simpl. apply lookup_zip_with. Qed.

Lemma entry_map N (f : R → R) t i j :
  entry N (tensor_map f t) i j = f <$> entry N t i j.
Proof. unfold entry. simpl. apply list_lookup_fmap. Qed.

End torch_facts.

(** * The cell *)

Section cell_facts.
Context {R : Type} `{Scalar R}.
Implicit Types (G : gmap string (value R)) (self : LSTMCell R).

Lemma zip_with_wf (f : R → R → R) s (da db : list R) :
  tensor_wf (Tensor s da) → tensor_wf (Tensor s db) →
  tensor_wf (Tensor s (zip_with f da db)).
Proof.
  unfold tensor_wf. simpl. intros Ha Hb.
  rewrite length_zip_with, Ha, Hb. lia.
Qed.

Lemma gate_block_shape B Hd (w : tensor R) k :
  shape (gate_block B Hd w k) = [B; Hd].
Proof. done. Qed.

Lemma gate_block_wf B Hd (w : tensor R) k :
  shape w = [B; 4 * Hd] → tensor_wf w → k < 4 →
  tensor_wf (gate_block B Hd w k).
Proof.
  unfold tensor_wf at 1. intros -> Hlen Hk. apply narrow1_wf.
  - rewrite Hlen. simpl. lia.
  - assert (k * Hd ≤ 3 * Hd) by (apply Nat.mul_le_mono_r; lia). lia.
Qed.

(** Lines 179-190 on a pre-activation of shape [(B, 4 * Hd)] and a memory
    of shape [(B, Hd)]: the gates are read off the column blocks 0, 1, 2
    and 3 in this order, and the call returns. *)
Lemma LSTMCell_gates_ok B Hd w c :
  shape w = [B; 4 * Hd] → tensor_wf w →
  shape c = [B; Hd] → tensor_wf c →
  let input_gate := sigmoid (gate_block B Hd w 0) in
  let forget_gate := sigmoid (gate_block B Hd w 1) in
  let output_gate := sigmoid (gate_block B Hd w 2) in
  let cell_gate := tanh (gate_block B Hd w 3) in
  let new_cell :=
    Tensor [B; Hd]
      (zip_with s_add (zip_with s_mul (data forget_gate) (data c))
                      (zip_with s_mul (data input_gate) (data cell_gate))) in
  let new_hidden :=
    Tensor [B; Hd] (zip_with s_mul (data output_gate) (data (tanh new_cell))) in
  LSTMCell_gates w (VTensor c)
  = Ok (VTuple [VTensor new_hidden; VTuple [VTensor new_hidden; VTensor new_cell]]).
Proof.
  intros Hw Hwf Hc Hcwf. cbv zeta.
  assert (∀ k, k < 4 → tensor_wf (gate_block B Hd w k)) as Hg
    by (intros; by apply gate_block_wf).
  unfold LSTMCell_gates.
  destruct w as [sw dw]. cbn [shape] in Hw. subst sw.
  rewrite chunk1_four. 
  change ((λ k, narrow1 B (4 * Hd) [] (k * Hd) Hd dw) <$> seq 0 4)
    with (gate_block B Hd (Tensor [B; 4 * Hd] dw) <$> seq 0 4).
  set (w := Tensor [B; 4 * Hd] dw) in *.
  cbn [seq fmap list_fmap mbind res_bind getitem lookup list_lookup from_option as_tensor].
  unfold tensor_mul, tensor_add.
  pose proof (tensor_map_wf s_sigmoid _ (Hg 0 ltac:(lia))) as Hi.
  pose proof (tensor_map_wf s_sigmoid _ (Hg 1 ltac:(lia))) as Hf.
  pose proof (tensor_map_wf s_sigmoid _ (Hg 2 ltac:(lia))) as Ho.
  pose proof (tensor_map_wf s_tanh _ (Hg 3 ltac:(lia))) as Hcg.
  fold (sigmoid (gate_block B Hd w 0)) in Hi.
  fold (sigmoid (gate_block B Hd w 1)) in Hf.
  fold (sigmoid (gate_block B Hd w 2)) in Ho.
  fold (tanh (gate_block B Hd w 3)) in Hcg.
  assert (tensor_wf (Tensor [B; Hd] (data c))) as Hcwf'
    by (by rewrite <-Hc; destruct c).
  pose proof (zip_with_wf s_mul [B; Hd] _ _ Hf Hcwf') as Hfc.
  pose proof (zip_with_wf s_mul [B; Hd] _ _ Hi Hcg) as Hig.
  rewrite (tensor_zip_same_shape _ (sigmoid (gate_block B Hd w 1)) c)
    by (done || by rewrite Hc).
  cbn [mbind res_bind].
  rewrite (tensor_zip_same_shape _ (sigmoid (gate_block B Hd w 0))
             (tanh (gate_block B Hd w 3))) by done.
  cbn [mbind res_bind].
  rewrite tensor_zip_same_shape by done.
  cbn [mbind res_bind shape data].
  rewrite tensor_zip_same_shape;
    [done|done|done|by apply tensor_map_wf, zip_with_wf].

Qed.
End cell_facts.

Section cell_forward_facts.
Context {R : Type} `{Scalar R}.
Implicit Types (G : gmap string (value R)) (self : LSTMCell R).

Lemma notebook_globals_previous_hidden :
  load_global (R:=R) notebook_globals "previous_hidden"
  = Raise (NameError "previous_hidden").
Proof. done. Qed.

(** Once line 177 has produced the pre-activation, the rest of the call is
    [LSTMCell_gates]. *)
Lemma LSTMCell_forward_from_line_177 G self x st hs cs a ph b w :
  unpack2 st = Ok (hs, cs) →
  Linear_call (input_layer self) x = Ok a →
  load_global G "previous_hidden" = Ok ph →
  Linear_call (hidden_layer self) ph = Ok b →
  tensor_add a b = Ok w →
  LSTMCell_forward G self x st = LSTMCell_gates w cs.
Proof.
  intros Hst Ha Hph Hb Hw. unfold LSTMCell_forward.
  rewrite Hst. cbn [mbind res_bind]. rewrite Ha. cbn [mbind res_bind].
  rewrite Hph. cbn [mbind res_bind]. rewrite Hb. cbn [mbind res_bind].
  by rewrite Hw.
Qed.

(** C1: with the globals the notebook defines, a call of
    [LSTMCell.forward] on a current input of the configured width [D]
    (any leading batch dimensions) and a state pair does not get to the
    sum of the two projections: the name [previous_hidden] on line 177 is
    unbound and the call raises [NameError] instead of returning. *)
Theorem LSTMCell_forward_raises_NameError D Hd self x lead hs cs :
  LSTMCell_wf D Hd self → shape x = lead ++ [D] →
  LSTMCell_forward notebook_globals self (VTensor x) (VTuple [hs; cs])
  = Raise (NameError "previous_hidden").
Proof.
  intros [Hin _] Hx.
  destruct (linear_ok D (4 * Hd) _ x lead Hin Hx) as (a & Ha & _).
  unfold LSTMCell_forward. cbn [unpack2 mbind res_bind Linear_call].
  rewrite Ha. cbn [mbind res_bind].
  by rewrite notebook_globals_previous_hidden.
Qed.

(** C3: with the globals the notebook defines, no call of
    [LSTMCell.forward] returns, whatever it is given: nothing is emitted
    and no state is carried. *)
Theorem LSTMCell_forward_never_returns self x st :
  is_ok (LSTMCell_forward notebook_globals self x st) = false.
Proof.
  unfold LSTMCell_forward.
  destruct (unpack2 st) as [[hs cs]|e]; [|done]. cbn [mbind res_bind].
  destruct (Linear_call (input_layer self) x) as [a|e]; [|done].
  cbn [mbind res_bind]. by rewrite notebook_globals_previous_hidden.
Qed.

End cell_forward_facts.

Section cell_shapes.
Context {R : Type} `{Scalar R}.
Implicit Types (G : gmap string (value R)) (self : LSTMCell R).

(** Line 177 when [previous_hidden] does resolve, to a tensor of the shape
    of a hidden state: the pre-activation has shape [(B, 4 * Hd)]. *)
Lemma line_177_ok D Hd B self x P :
  LSTMCell_wf D Hd self → shape x = [B; D] → shape P = [B; Hd] →
  ∃ a b w,
    linear (input_layer self) x = Ok a ∧
    linear (hidden_layer self) P = Ok b ∧
    tensor_add a b = Ok w ∧
    shape w = [B; 4 * Hd] ∧ tensor_wf w ∧
    data w = zip_with s_add (data a) (data b).
Proof.
  intros [Hin Hhid] Hx HP.
  destruct (linear_ok D (4 * Hd) _ x [B] Hin Hx) as (a & Ha & Hsa & Hwa).
  destruct (linear_ok Hd (4 * Hd) _ P [B] Hhid HP) as (b & Hb & Hsb & Hwb).
  exists a, b, (Tensor (shape a) (zip_with s_add (data a) (data b))).
  split_and!; try done.
  - apply tensor_zip_same_shape; [by rewrite Hsa, Hsb|done..].
  - destruct a as [sa da], b as [sb db]. simpl in Hsa, Hsb. subst sa sb.
    by apply zip_with_wf.
Qed.

Lemma entry_is_Some N B (t : tensor R) i j :
  shape t = [B; N] → tensor_wf t → i < B → j < N →
  is_Some (entry N t i j).
Proof.
  unfold tensor_wf, entry. intros -> Hlen Hi Hj.
  apply lookup_lt_is_Some. rewrite Hlen. simpl. nia.
Qed.

Lemma entry_gate_block B Hd (w : tensor R) k i j :
  shape w = [B; 4 * Hd] → tensor_wf w → k < 4 → i < B → j < Hd →
  data (gate_block B Hd w k) !! (i * Hd + j) = entry (4 * Hd) w i (k * Hd + j).
Proof.
  intros Hw Hwf Hk Hi Hj. destruct w as [sw dw]. cbn [shape] in Hw. subst sw.
  assert (k * Hd ≤ 3 * Hd) by (apply Nat.mul_le_mono_r; lia).
  apply (entry_narrow1 B (4 * Hd) (k * Hd) Hd dw i j); [|lia|done..].
  unfold tensor_wf in Hwf. simpl in Hwf. lia.
Qed.

(** With [previous_hidden] bound to a tensor of the shape of a hidden
    state, a correctly shaped call gets past line 177 and returns what
    lines 179-190 compute. *)
Lemma LSTMCell_forward_bound G D Hd B self x P hs c :
  LSTMCell_wf D Hd self → shape x = [B; D] →
  G !! "previous_hidden" = Some (VTensor P) → shape P = [B; Hd] →
  shape c = [B; Hd] → tensor_wf c →
  ∃ a b w,
    linear (input_layer self) x = Ok a ∧
    linear (hidden_layer self) P = Ok b ∧
    tensor_add a b = Ok w ∧ shape w = [B; 4 * Hd] ∧ tensor_wf w ∧
    LSTMCell_forward G self (VTensor x) (VTuple [hs; VTensor c])
    = LSTMCell_gates w (VTensor c) ∧
    is_ok (LSTMCell_gates w (VTensor c)) = true.
Proof.
  intros Hself Hx HG HP Hc Hcwf.
  destruct (line_177_ok D Hd B self x P Hself Hx HP)
    as (a & b & w & Ha & Hb & Hadd & Hw & Hwwf & _).
  exists a, b, w. split_and!; try done.
  - apply (LSTMCell_forward_from_line_177 G self (VTensor x)
             (VTuple [hs; VTensor c]) hs (VTensor c) a (VTensor P) b w);
      [done|done|unfold load_global; by rewrite HG|done|done].
  - by rewrite (LSTMCell_gates_ok B Hd w c Hw Hwwf Hc Hcwf).
Qed.

(** C9: lines 179-190 on a pre-activation [w] of shape [(B, 4 * Hd)] and
    a memory of shape [(B, Hd)]. The call returns, and entry [(i, j)] of
    the results is computed from the columns [j], [Hd + j], [2 * Hd + j]
    and [3 * Hd + j] of row [i] of [w]: chunk 0 is the input gate, chunk 1
    the forget gate, chunk 2 the output gate, all three through
    [sigmoid], and chunk 3 the candidate, through [tanh]. *)
Theorem gate_chunk_assignment B Hd (w c : tensor R) :
  shape w = [B; 4 * Hd] → tensor_wf w →
  shape c = [B; Hd] → tensor_wf c →
  ∃ new_hidden new_cell,
    LSTMCell_gates w (VTensor c)
    = Ok (VTuple [VTensor new_hidden;
                  VTuple [VTensor new_hidden; VTensor new_cell]]) ∧
    shape new_hidden = [B; Hd] ∧ shape new_cell = [B; Hd] ∧
    ∀ i j, i < B → j < Hd →
      ∃ w0 w1 w2 w3 c_prev,
        entry (4 * Hd) w i j = Some w0 ∧
        entry (4 * Hd) w i (Hd + j) = Some w1 ∧
        entry (4 * Hd) w i (2 * Hd + j) = Some w2 ∧
        entry (4 * Hd) w i (3 * Hd + j) = Some w3 ∧
        entry Hd c i j = Some c_prev ∧
        let input_gate := s_sigmoid w0 in
        let forget_gate := s_sigmoid w1 in
        let output_gate := s_sigmoid w2 in
        let cell_gate := s_tanh w3 in
        let c_new := s_add (s_mul forget_gate c_prev) (s_mul input_gate cell_gate) in
        entry Hd new_cell i j = Some c_new ∧
        entry Hd new_hidden i j = Some (s_mul output_gate (s_tanh c_new)).
Proof.
  intros Hw Hwwf Hc Hcwf.
  pose proof (LSTMCell_gates_ok B Hd w c Hw Hwwf Hc Hcwf) as Hgates.
  cbv zeta in Hgates.
  match type of Hgates with
  | _ = Ok (VTuple [VTensor ?h; VTuple [_; VTensor ?c']]) => exists h, c'
  end.
  split_and!; [done..|].
  intros i j Hi Hj.
  destruct (entry_is_Some (4 * Hd) B w i j) as [w0 E0]; [done|done|lia..|].
  destruct (entry_is_Some (4 * Hd) B w i (Hd + j)) as [w1 E1]; [done|done|lia..|].
  destruct (entry_is_Some (4 * Hd) B w i (2 * Hd + j)) as [w2 E2]; [done|done|lia..|].
  destruct (entry_is_Some (4 * Hd) B w i (3 * Hd + j)) as [w3 E3]; [done|done|lia..|].
  destruct (entry_is_Some Hd B c i j) as [cp Ec]; [done..|].
  exists w0, w1, w2, w3, cp. split_and!; try done; cbv zeta.
  unfold entry. cbn [data sigmoid tanh tensor_map].
  rewrite !lookup_zip_with, !list_lookup_fmap, !lookup_zip_with, !list_lookup_fmap.
  rewrite !entry_gate_block by (done || lia).
  replace (0 * Hd + j) with j by lia.
  replace (1 * Hd + j) with (Hd + j) by lia.
  unfold entry in Ec. rewrite E0, E1, E2, E3, Ec. done.
Qed.
End cell_shapes.

Section cell_errors.
Context {R : Type} `{Scalar R}.
Implicit Types (G : gmap string (value R)) (self : LSTMCell R).

(** *** Broadcasting: what [+] and [*] accept *)








End cell_errors.

(** * The layer *)

Section loop_facts.
Context {C A : Type}.
Implicit Types (body : nat → A → py C A).

Lemma for_loop_app body l1 l2 acc c :
  for_loop body (l1 ++ l2) acc c
  = (for_loop body l1 acc ≫= for_loop body l2) c.
Proof.
  revert acc c. induction l1 as [|i l1 IH]; intros acc c; [done|].
  cbn [app for_loop]. unfold mbind, py_bind.
  destruct (body i acc c) as [c1 [acc1|e]]; [|done]. apply IH.
Qed.

Lemma for_loop_ext body1 body2 l acc c :
  Forall (λ i, ∀ acc c, body1 i acc c = body2 i acc c) l →
  for_loop body1 l acc c = for_loop body2 l acc c.
Proof.
  intros Hall. revert acc c.
  induction Hall as [|i l Hi _ IH]; intros acc c; [done|].
  cbn [for_loop]. unfold mbind, py_bind. rewrite Hi.
  destruct (body2 i acc c) as [c1 [acc1|e]]; [apply IH|done].
Qed.

End loop_facts.

Section stack_facts.
Context {R : Type}.
Implicit Types (t o : tensor R) (ts : list (tensor R)).

Lemma join_join {A} (xss : list (list (list A))) :
  mjoin (mjoin <$> xss) = mjoin (mjoin xss).
Proof.
  induction xss as [|xs xss IH]; [done|]. csimpl. by rewrite IH, join_app.
Qed.

(** Reading the [k]-th block off a concatenation of blocks of one size. *)
Lemma block_join {A} sz (bs : list (list A)) k l :
  Forall (λ b, length b = sz) bs → bs !! k = Some l →
  block sz k (mjoin bs) = l.
Proof.
  intros Hall. revert k. induction Hall as [|b bs Hb _ IH]; intros k Hk; [done|].
  unfold block in *. csimpl. destruct k as [|k]; simplify_eq/=.
  - by rewrite drop_0, take_app_length.
  - rewrite drop_app_add. by apply IH.
Qed.

(** What [stack1] accepts. *)
Lemma stack1_Ok ts o :
  stack1 ts = Ok o ↔
  ∃ d0 rest, ts ≠ [] ∧ Forall (λ t, shape t = d0 :: rest) ts ∧
    o = Tensor (d0 :: length ts :: rest)
          (mjoin ((λ i, mjoin ((λ t, block (numel rest) i (data t)) <$> ts))
                    <$> seq 0 d0)).
Proof.
  unfold stack1. destruct ts as [|t0 ts].
  { split; [done|]. by intros (? & ? & ? & _). }
  destruct (shape t0) as [|d0 rest] eqn:Ht0.
  { split; [done|]. intros (d0 & rest & _ & Hall & _).
    apply Forall_cons_1 in Hall as [? _]. congruence. }
  case_decide as Hall.
  - split.
    + intros [= <-]. by exists d0, rest.
    + intros (d0' & rest' & _ & Hall' & ->).
      apply Forall_cons_1 in Hall' as [Ht0' _].
      rewrite Ht0 in Ht0'. by injection Ht0' as <- <-.
  - split; [done|]. intros (d0' & rest' & _ & Hall' & _). destruct Hall.
    pose proof Hall' as [Ht0' _]%Forall_cons_1.
    rewrite Ht0 in Ht0'. by injection Ht0' as <- <-.
Qed.

(** The slices along dimension 1 of a stack are the stacked tensors, in
    order. *)
Lemma unbind1_stack1 ts o :
  stack1 ts = Ok o → Forall tensor_wf ts → unbind1 o = Ok ts.
Proof.
  intros (d0 & rest & _ & Hshape & ->)%stack1_Ok Hwf.
  unfold unbind1. cbn [shape data]. f_equal.
  set (inner := numel rest).
  assert (Forall (λ t, length (data t) = d0 * inner) ts) as Hlen.
  { rewrite Forall_forall in Hshape, Hwf |- *. intros t Ht.
    specialize (Hshape t Ht). specialize (Hwf t Ht).
    unfold tensor_wf in Hwf. by rewrite Hwf, Hshape. }
  set (rows := (λ i, (λ t, block inner i (data t)) <$> ts) <$> seq 0 d0).
  replace ((λ i, mjoin ((λ t, block inner i (data t)) <$> ts)) <$> seq 0 d0)
    with (@mjoin list _ R <$> rows) by (unfold rows; by rewrite <-list_fmap_compose).
  rewrite (join_join rows).
  assert (Forall (λ b : list R, length b = inner) (mjoin rows)) as Hblocks.
  { apply Forall_join, Forall_fmap, Forall_forall. intros i Hi%elem_of_seq.
    apply Forall_fmap. eapply Forall_impl; [exact Hlen|].
    intros t Ht. simpl. apply length_block. rewrite Ht. nia. }
  assert (∀ i j t, i < d0 → ts !! j = Some t →
            mjoin rows !! (i * length ts + j) = Some (block inner i (data t)))
    as Hrow.
  { intros i j t Hi Hj.
    rewrite (lookup_join_rows (length ts)).
    - unfold rows. rewrite list_lookup_fmap, lookup_seq_lt by done. simpl.
      by rewrite list_lookup_fmap, Hj.
    - apply Forall_fmap, Forall_forall. intros ? _. simpl.
      by rewrite length_fmap.
    - by eapply lookup_lt_Some. }
  apply list_eq. intros j. rewrite list_lookup_fmap.
  destruct (ts !! j) as [t|] eqn:Hj.
  - rewrite lookup_seq_lt by (by eapply lookup_lt_Some). simpl.
    f_equal. unfold select1. destruct t as [st dt].
    rewrite Forall_forall in Hshape, Hlen.
    pose proof (Hshape _ (list_elem_of_lookup_2 _ _ _ Hj)) as Hst.
    pose proof (Hlen _ (list_elem_of_lookup_2 _ _ _ Hj)) as Hdt.
    simpl in Hst, Hdt. subst st. f_equal.
    rewrite (fmap_seq_ext _ (λ i, block inner i dt)).
    + by apply (join_blocks d0).
    + intros i Hi. apply block_join; [done|].
      rewrite (Hrow i j _ ltac:(lia) Hj). done.
  - by rewrite lookup_seq_ge by (by apply lookup_ge_None).
Qed.

End stack_facts.

Section layer_facts.
Context {R : Type} `{Scalar R} {C : Type}.
Implicit Types (cell : cell_fn R C) (xs pre : list (tensor R)).

(** One iteration, spelt out. *)
Lemma loop_body_at cell inputs i x outs state c :
  inputs !! i = Some x →
  loop_body cell inputs i (outs, state) c
  = match cell (VTensor x) state c with
    | (c1, Ok r) =>
        match unpack2 r with
        | Ok (output, state1) => (c1, Ok (outs ++ [output], state1))
        | Raise e => (c1, Raise e)
        end
    | (c1, Raise e) => (c1, Raise e)
    end.
Proof.
  intros Hi. unfold loop_body, getitem, lift, mbind, py_bind, mret, py_ret.
  rewrite Hi. cbn [from_option snd fst].
  destruct (cell (VTensor x) state c) as [c1 [r|e]]; [|done].
  by destruct (unpack2 r) as [[output state1]|e].
Qed.

(** The loop of lines 218-220 carries out the recurrence. *)
Lemma loop_of_threaded cell pre xs c outs0 state calls outs state' c' :
  threaded cell c xs state calls outs state' c' →
  for_loop (loop_body cell (pre ++ xs)) (seq (length pre) (length xs))
    (outs0, state) c
  = (c', Ok (outs0 ++ outs, state')).
Proof.
  intros Hthr. revert pre outs0.
  induction Hthr as [c state|c x xs state c1 r output state1 calls outs
                       state' c' Hcall Hunpack _ IH]; intros pre outs0.
  { by rewrite !app_nil_r. }
  cbn [length seq for_loop]. unfold mbind at 1, py_bind at 1.
  rewrite (loop_body_at _ _ _ x) by (by apply list_lookup_middle).
  rewrite Hcall, Hunpack.
  specialize (IH (pre ++ [x]) (outs0 ++ [output])).
  rewrite <-!(assoc_L (++)), length_app, Nat.add_1_r in IH. exact IH.
Qed.

(** Conversely, a loop that runs to its end has carried it out. *)
Lemma threaded_of_loop cell pre xs c outs0 state acc c' :
  for_loop (loop_body cell (pre ++ xs)) (seq (length pre) (length xs))
    (outs0, state) c = (c', Ok acc) →
  ∃ calls outs,
    acc.1 = outs0 ++ outs ∧ threaded cell c xs state calls outs acc.2 c'.
Proof.
  revert pre c outs0 state.
  induction xs as [|x xs IH]; intros pre c outs0 state.
  { intros [= <- <-]. exists [], []. rewrite !app_nil_r. split; [done|constructor]. }
  cbn [length seq for_loop]. unfold mbind at 1, py_bind at 1.
  rewrite (loop_body_at _ _ _ x) by (by apply list_lookup_middle).
  destruct (cell (VTensor x) state c) as [c1 [r|e]] eqn:Hcall; [|done].
  destruct (unpack2 r) as [[output state1]|e] eqn:Hunpack; [|done].
  specialize (IH (pre ++ [x]) c1 (outs0 ++ [output]) state1).
  rewrite <-!(assoc_L (++)), length_app, Nat.add_1_r in IH.
  intros (calls & outs & Hacc & Hthr)%IH.
  exists ((VTensor x, state) :: calls), (output :: outs). split.
  - by rewrite Hacc, <-(assoc_L (++)).
  - by econstructor.
Qed.

Lemma threaded_lengths cell c xs state calls outs state' c' :
  threaded cell c xs state calls outs state' c' →
  calls.*1 = VTensor <$> xs ∧ length calls = length xs ∧ length outs = length xs.
Proof.
  induction 1 as [c state|c x xs state c1 r output state1 calls outs
                    state' c' Hcall Hunpack _ IH]; [done|].
  destruct IH as (IH1 & IH2 & IH3). csimpl. by rewrite IH1, IH2, IH3.
Qed.

Lemma threaded_logging cell c xs state calls outs state' c' log :
  threaded cell c xs state calls outs state' c' →
  threaded (logging cell) (c, log) xs state calls outs state' (c', log ++ calls).
Proof.
  intros Hthr. revert log.
  induction Hthr as [c state|c x xs state c1 r output state1 calls outs
                       state' c' Hcall Hunpack _ IH]; intros log.
  { rewrite app_nil_r. constructor. }
  econstructor; [|exact Hunpack|].
  - unfold logging. cbn [fst snd]. by rewrite Hcall.
  - specialize (IH (log ++ [(VTensor x, state)])).
    by rewrite <-(assoc_L (++)) in IH.
Qed.

Lemma mapM_as_tensor (ts : list (tensor R)) :
  mapM as_tensor (VTensor <$> ts) = Ok ts.
Proof.
  induction ts as [|t ts IH]; [done|].
  cbn [fmap list_fmap mapM as_tensor mbind res_bind]. by rewrite IH.
Qed.

Lemma mapM_as_tensor_Ok (vs : list (value R)) ts :
  mapM as_tensor vs = Ok ts → vs = VTensor <$> ts.
Proof.
  revert ts. induction vs as [|v vs IH]; intros ts.
  { by intros [= <-]. }
  cbn [mapM]. destruct v as [t| |]; try done.
  cbn [as_tensor mbind res_bind].
  destruct (mapM as_tensor vs) as [ts'|] eqn:Hvs; [|done].
  intros [= <-]. by rewrite (IH ts').
Qed.

End layer_facts.

Lemma LSTMLayer_forward_unfold {R C} (cell : cell_fn R C) input xs state c :
  unbind1 input = Ok xs →
  LSTMLayer_forward cell input state c
  = (for_loop (loop_body cell xs) (seq 0 (length xs)) ([], state)
       ≫= λ acc, lift (finish acc)) c.
Proof.
  intros Hxs. unfold LSTMLayer_forward, lift at 1.
  unfold mbind at 1, py_bind at 1. by rewrite Hxs.
Qed.

Section layer_theorems.
Context {R : Type} `{Scalar R} {C : Type}.
Implicit Types (cell : cell_fn R C) (xs : list (tensor R)).

(** The layer over a cell that keeps its contract. On a sequence of
    [T >= 1] steps, if the cell returns a pair at each step of the
    recurrence (step [t] being given the [t]-th input and the state step
    [t - 1] returned, step 0 the initial state) and the emitted values are
    well-formed tensors of one shape of rank at least one, then
    [LSTMLayer.forward] returns; what it returns is the stack of the [T]
    emitted values, whose slices along dimension 1 are these values in
    order, together with the state of the last step; and the cell has been
    called exactly [T] times, on the inputs in increasing order, each time
    with the state carried so far. The cell of the notebook does not get
    through its first step. *)
Theorem LSTMLayer_forward_threads cell c input xs state calls ts state' c'
    d0 rest :
  unbind1 input = Ok xs → xs ≠ [] →
  threaded cell c xs state calls (VTensor <$> ts) state' c' →
  Forall (λ t, shape t = d0 :: rest) ts → Forall tensor_wf ts →
  ∃ o,
    LSTMLayer_forward cell input state c
    = (c', Ok (VTuple [VTensor o; state'])) ∧
    shape o = d0 :: length xs :: rest ∧
    unbind1 o = Ok ts ∧ length ts = length xs ∧
    LSTMLayer_forward (logging cell) input state (c, [])
    = ((c', calls), Ok (VTuple [VTensor o; state'])) ∧
    calls.*1 = VTensor <$> xs ∧ length calls = length xs.
Proof.
  intros Hxs Hne Hthr Hshape Hwf.
  pose proof (threaded_lengths _ _ _ _ _ _ _ _ Hthr) as (Hc1 & Hc2 & Hlen).
  rewrite length_fmap in Hlen.
  assert (ts ≠ []) as Hts by (intros ->; by destruct xs).
  assert (∃ o, stack1 ts = Ok o) as [o Hstack].
  { eexists. apply stack1_Ok. by exists d0, rest. }
  assert (finish (VTensor <$> ts, state') = Ok (VTuple [VTensor o; state'])) as Hfin.
  { unfold finish, stack_values. cbn [fst snd].
    rewrite mapM_as_tensor. cbn [mbind res_bind]. by rewrite Hstack. }
  exists o. split_and!; try done.
  - rewrite (LSTMLayer_forward_unfold _ _ xs) by done.
    unfold mbind, py_bind.
    pose proof (loop_of_threaded cell [] xs c [] state calls _ state' c' Hthr)
      as Hloop.
    cbn [app length] in Hloop. by rewrite Hloop, <-Hfin.
  - apply stack1_Ok in Hstack as (d0' & rest' & _ & Hshape' & ->).
    destruct ts as [|t0 ts]; [done|].
    apply Forall_cons_1 in Hshape as [E1 _], Hshape' as [E2 _].
    rewrite E1 in E2. injection E2 as <- <-. by rewrite Hlen.
  - by apply unbind1_stack1.
  - rewrite (LSTMLayer_forward_unfold _ _ xs) by done.
    unfold mbind, py_bind.
    pose proof (loop_of_threaded (logging cell) [] xs (c, []) [] state calls _
                  state' (c', calls)
                  (threaded_logging cell c xs state calls _ state' c' [] Hthr))
      as Hloop.
    cbn [app length] in Hloop. by rewrite Hloop, <-Hfin.
Qed.

(** A loop that runs to its end has appended one output per iteration. *)
Lemma loop_outputs_grow cell inputs idxs acc c c' acc' :
  for_loop (loop_body cell inputs) idxs acc c = (c', Ok acc') →
  ∃ more, acc'.1 = acc.1 ++ more ∧ length more = length idxs.
Proof.
  revert acc c. induction idxs as [|i idxs IH]; intros [outs state] c.
  { intros [= <- <-]. exists []. by rewrite app_nil_r. }
  cbn [for_loop]. unfold mbind at 1, py_bind at 1.
  destruct (loop_body cell inputs i (outs, state) c) as [c1 [acc1|e]] eqn:Hbody;
    [|done].
  intros (more & Hmore & Hlen)%IH.
  unfold loop_body, getitem, lift, mbind, py_bind, mret, py_ret in Hbody.
  destruct (inputs !! i) as [x|]; [|done]. cbn [from_option fst snd] in Hbody.
  destruct (cell (VTensor x) state c) as [c2 [r|e]]; [|done].
  destruct (unpack2 r) as [[output state1]|e]; [|done].
  injection Hbody as <- <-. exists (output :: more). split.
  - rewrite Hmore. cbn [fst]. by rewrite <-(assoc_L (++)).
  - simpl. by rewrite Hlen.
Qed.

Lemma stack_values_take (outs : list (value R)) o k :
  stack_values outs = Ok o → 1 ≤ k →
  ∃ o', stack_values (take k outs) = Ok o'.
Proof.
  unfold stack_values. intros Hst Hk.
  destruct (mapM as_tensor outs) as [ts|] eqn:Hts; [|done].
  cbn [mbind res_bind] in Hst. apply mapM_as_tensor_Ok in Hts as ->.
  rewrite <-fmap_take, mapM_as_tensor. cbn [mbind res_bind].
  apply stack1_Ok in Hst as (d0 & rest & Hne & Hshape & _).
  eexists. apply stack1_Ok. exists d0, rest. split_and!; [|by apply Forall_take|done].
  destruct ts; [done|]. by destruct k; [lia|].
Qed.

(** C6: let [input'] hold the first [k] steps of [input], [1 <= k <= T].
    The loop of [LSTMLayer.forward] on [input'] ends exactly where the loop
    on [input] stands after its iteration [k - 1], be it with a carried
    state and [k] outputs or with the exception the cell raised; the loop
    on [input] goes on from there; and when the run on [input] returns, the
    run on [input'] returns the state carried after step [k - 1] together
    with the stack of the first [k] of the outputs of the full run. *)
Theorem prefix_consistency cell c input input' xs k state :
  unbind1 input = Ok xs → unbind1 input' = Ok (take k xs) →
  1 ≤ k ≤ length xs →
  let after_k := for_loop (loop_body cell xs) (seq 0 k) ([], state) in
  for_loop (loop_body cell (take k xs)) (seq 0 (length (take k xs))) ([], state) c
  = after_k c ∧
  for_loop (loop_body cell xs) (seq 0 (length xs)) ([], state) c
  = (after_k ≫= for_loop (loop_body cell xs) (seq k (length xs - k))) c ∧
  LSTMLayer_forward cell input' state c
  = (after_k ≫= λ acc, lift (finish acc)) c ∧
  ∀ o state_T c_T,
    LSTMLayer_forward cell input state c
    = (c_T, Ok (VTuple [VTensor o; state_T])) →
    ∃ outs outs_k state_k c_k o',
      after_k c = (c_k, Ok (outs_k, state_k)) ∧
      LSTMLayer_forward cell input' state c
      = (c_k, Ok (VTuple [VTensor o'; state_k])) ∧
      stack_values outs = Ok o ∧ length outs = length xs ∧
      outs_k = take k outs ∧ stack_values outs_k = Ok o'.
Proof.
  intros Hxs Hxs' Hk. cbv zeta.
  assert (length (take k xs) = k) as Hlen by (rewrite length_take; lia).
  assert (for_loop (loop_body cell (take k xs)) (seq 0 (length (take k xs)))
            ([], state) c
          = for_loop (loop_body cell xs) (seq 0 k) ([], state) c) as Hprefix.
  { rewrite Hlen. apply for_loop_ext, Forall_forall.
    intros i Hi%elem_of_seq acc c1. unfold loop_body, getitem.
    by rewrite lookup_take_lt by lia. }
  assert (for_loop (loop_body cell xs) (seq 0 (length xs)) ([], state) c
          = (for_loop (loop_body cell xs) (seq 0 k) ([], state)
               ≫= for_loop (loop_body cell xs) (seq k (length xs - k))) c)
    as Hsplit.
  { rewrite <-for_loop_app, <-seq_app. do 2 f_equal. lia. }
  assert (LSTMLayer_forward cell input' state c
          = (for_loop (loop_body cell xs) (seq 0 k) ([], state)
               ≫= λ acc, lift (finish acc)) c) as Hrun'.
  { rewrite (LSTMLayer_forward_unfold _ _ (take k xs)) by done.
    unfold mbind, py_bind. by rewrite Hprefix. }
  split_and!; [done..|].
  intros o state_T c_T Hrun.
  rewrite (LSTMLayer_forward_unfold _ _ xs) in Hrun by done.
  rewrite Hrun'. unfold mbind, py_bind in Hrun, Hsplit |- *.
  rewrite Hsplit in Hrun.
  destruct (for_loop (loop_body cell xs) (seq 0 k) ([], state) c)
    as [c_k [[outs_k state_k]|e]] eqn:Hk_loop; [|done].
  destruct (for_loop (loop_body cell xs) (seq k (length xs - k))
              (outs_k, state_k) c_k) as [c_T' [[outs state_T']|e]] eqn:Hrest;
    [|done].
  unfold lift, finish in Hrun. cbn [fst snd] in Hrun.
  destruct (stack_values outs) as [o1|e] eqn:Hstack; [|done].
  cbn [mbind res_bind] in Hrun. injection Hrun as <- <- <-.
  apply loop_outputs_grow in Hk_loop as (m1 & Hm1 & Hl1).
  apply loop_outputs_grow in Hrest as (m2 & Hm2 & Hl2).
  cbn [fst] in Hm1, Hm2. rewrite length_seq in Hl1, Hl2. subst outs_k outs.
  assert (take k (m1 ++ m2) = m1) as Htake by (by apply take_app_length').
  destruct (stack_values_take (m1 ++ m2) o1 k Hstack) as [o' Ho']; [lia|].
  rewrite Htake in Ho'.
  exists (m1 ++ m2), m1, state_k, c_k, o'. split_and!; try done.
  - unfold lift, finish. cbn [fst snd app]. by rewrite Ho'.
  - rewrite length_app. lia.
Qed.

(** C10: on an input with no time step the loop body never runs and
    stacking the empty list of outputs fails: the call raises, whatever
    the cell and the initial state, and the cell is left untouched. *)
Theorem LSTMLayer_forward_empty_sequence cell c d0 rest d state :
  LSTMLayer_forward cell (Tensor (d0 :: 0 :: rest) d) state c
  = (c, Raise (RuntimeError EmptyTensorList)).
Proof. done. Qed.

End layer_theorems.

(** The instance the notebook builds, [LSTMLayer(LSTMCell, ...)], run with
    the globals the notebook defines: the first call of the cell raises
    [NameError] (see C1), so the layer raises on every sequence that has a
    first step of the configured width. *)
Lemma LSTMLayer_notebook_cell_raises {R} `{Scalar R} D Hd (self : LSTMCell R)
    input x xs lead hs cs :
  LSTMCell_wf D Hd self → unbind1 input = Ok (x :: xs) → shape x = lead ++ [D] →
  LSTMLayer_forward (LSTMCell_call notebook_globals self) input
    (VTuple [hs; cs]) tt
  = (tt, Raise (NameError "previous_hidden")).
Proof.
  intros [Hin _] Hxs Hx.
  destruct (linear_ok D (4 * Hd) _ x lead Hin Hx) as (a & Ha & _).
  rewrite (LSTMLayer_forward_unfold _ _ (x :: xs)) by done.
  cbn [length seq for_loop]. unfold mbind, py_bind.
  rewrite (loop_body_at _ _ _ x) by done.
  unfold LSTMCell_call, lift, LSTMCell_forward.
  cbn [unpack2 mbind res_bind Linear_call]. rewrite Ha. cbn [mbind res_bind].
  by rewrite notebook_globals_previous_hidden.
Qed.

(** * The store *)

Lemma pyvalue_ind' {T} (P : pyvalue T → Prop) :
  (∀ t, P (VTensor t)) →
  (∀ vs, Forall P vs → P (VTuple vs)) →
  (∀ name, P (VOpaque name)) →
  ∀ v, P v.
Proof.
  intros Ht Htup Hop. fix IH 1. intros [t|vs|name]; [apply Ht| |apply Hop].
  apply Htup. induction vs as [|v vs IHvs]; constructor; [apply IH|exact IHvs].
Qed.

Section store_facts.
Context {R : Type} `{Scalar R}.
Implicit Types (σ : heap R) (v : rvalue) (w : value R).

Lemma read_tuple σ vs :
  read σ (VTuple vs) = VTuple <$> mapM (read σ) vs.
Proof.
  done.
Qed.

Lemma read_mono σ σ' v w : σ ⊆ σ' → read σ v = Some w → read σ' v = Some w.
Proof.
  intros Hsub. revert w.
  induction v as [l|vs IH|name] using pyvalue_ind'; intros w.
  - simpl. destruct (σ !! l) as [t|] eqn:Hl; [|done].
    by rewrite (lookup_weaken _ _ _ _ Hl Hsub).
  - rewrite !read_tuple.
    destruct (mapM (read σ) vs) as [ws|] eqn:Hws; [|done].
    intros [= <-]. enough (mapM (read σ') vs = Some ws) as -> by done.
    apply mapM_Some in Hws. apply mapM_Some.
    induction Hws as [|v w vs ws Hv _ IHws]; [constructor|].
    apply Forall_cons_1 in IH as [IHv IHvs]. constructor; auto.
  - done.
Qed.

Lemma read_linear_mono σ σ' lin vlin :
  σ ⊆ σ' → read_linear σ lin = Some vlin → read_linear σ' lin = Some vlin.
Proof.
  unfold read_linear. intros Hsub Hlin.
  destruct (σ !! rweight lin) as [w|] eqn:Hw; [|done].
  destruct (σ !! rbias lin) as [b|] eqn:Hb; [|done].
  by rewrite (lookup_weaken _ _ _ _ Hw Hsub), (lookup_weaken _ _ _ _ Hb Hsub).
Qed.

Lemma read_cell_mono σ σ' self vself :
  σ ⊆ σ' → read_cell σ self = Some vself → read_cell σ' self = Some vself.
Proof.
  unfold read_cell. intros Hsub Hself.
  destruct (read_linear σ (rinput_layer self)) as [i|] eqn:Hi; [|done].
  destruct (read_linear σ (rhidden_layer self)) as [h|] eqn:Hh; [|done].
  by rewrite (read_linear_mono _ _ _ _ Hsub Hi), (read_linear_mono _ _ _ _ Hsub Hh).
Qed.

(** *** Refinement, step by step *)

Lemma refines_bind {A B A' B'} (rel : heap R → A → B → Prop)
    (rel' : heap R → A' → B' → Prop) σ m p f g :
  refines rel σ m p →
  (∀ σ' a b, σ ⊆ σ' → rel σ' a b → p = Ok b → refines rel' σ' (f a) (g b)) →
  refines rel' σ (m ≫= f) (p ≫= g).
Proof.
  unfold refines, mbind, py_bind, res_bind. intros Hm Hf.
  destruct (m σ) as [σ1 [a|e]], p as [b|e']; try done.
  destruct Hm as [Hsub Hrel]. specialize (Hf σ1 a b Hsub Hrel eq_refl).
  destruct (f a σ1) as [σ2 [a'|e2]], (g b) as [b'|e2']; try done;
    destruct Hf as [Hsub' ?]; split; try done; by etrans.
Qed.

Lemma refines_ret {A B} (rel : heap R → A → B → Prop) σ a b :
  rel σ a b → refines rel σ (mret a) (Ok b).
Proof. by split. Qed.

Lemma refines_raise {A B} (rel : heap R → A → B → Prop) σ e :
  refines rel σ (lift (Raise e)) (Raise e).
Proof. by split. Qed.

Lemma refines_alloc σ t : refines points_to σ (alloc t) (Ok t).
Proof.
  unfold refines, alloc, points_to. split; [|apply lookup_insert_eq].
  apply insert_subseteq, not_elem_of_dom, is_fresh.
Qed.

Lemma refines_deref σ l t :
  points_to σ l t → refines (λ _ a b, a = b) σ (deref l) (Ok t).
Proof. unfold refines, deref, points_to. by intros ->. Qed.

Lemma refines_pure {A} σ (r : res A) : refines (λ _ a b, a = b) σ (lift r) r.
Proof. unfold refines, lift. by destruct r. Qed.

Lemma refines_op1 σ f l t :
  points_to σ l t → refines points_to σ (R_op1 f l) (f t).
Proof.
  intros Hl. unfold R_op1.
  replace (f t) with (Ok t ≫= λ t, f t ≫= λ r, Ok r)
    by (cbn [mbind res_bind]; by destruct (f t)).
  eapply refines_bind; [by apply refines_deref|]. intros σ1 ? ? _ -> _.
  eapply refines_bind; [apply refines_pure|]. intros σ2 ? r _ -> _.
  apply refines_alloc.
Qed.

Lemma refines_op2 σ f l1 l2 t1 t2 :
  points_to σ l1 t1 → points_to σ l2 t2 →
  refines points_to σ (R_op2 f l1 l2) (f t1 t2).
Proof.
  intros Hl1 Hl2. unfold R_op2.
  replace (f t1 t2) with (Ok t1 ≫= λ t1, Ok t2 ≫= λ t2, f t1 t2 ≫= λ r, Ok r)
    by (cbn [mbind res_bind]; by destruct (f t1 t2)).
  eapply refines_bind; [by apply refines_deref|]. intros σ1 ? ? Hsub -> _.
  eapply refines_bind;
    [apply refines_deref, (lookup_weaken _ _ _ _ Hl2 Hsub)|].
  intros σ2 ? ? _ -> _.
  eapply refines_bind; [apply refines_pure|]. intros σ3 ? r _ -> _.
  apply refines_alloc.
Qed.

Lemma refines_Linear_call σ lin vlin x vx :
  read_linear σ lin = Some vlin → reads σ x vx →
  refines points_to σ (R_Linear_call lin x) (Linear_call vlin vx).
Proof.
  unfold read_linear, reads. intros Hlin Hx.
  destruct (σ !! rweight lin) as [w|] eqn:Hw; [|done].
  destruct (σ !! rbias lin) as [b|] eqn:Hb; [|done].
  injection Hlin as <-.
  destruct x as [l|vs|name]; simpl in Hx.
  - destruct (σ !! l) as [t|] eqn:Hl; [|done]. injection Hx as <-.
    cbn [R_Linear_call Linear_call].
    set (p := linear (mkLinear w b) t).
    replace p with (Ok t ≫= λ t' : tensor R, Ok w ≫= λ w' : tensor R,
                    Ok b ≫= λ b' : tensor R,
                    linear (mkLinear w' b') t' ≫= λ r, Ok r)
      by (cbn [mbind res_bind]; by destruct (linear _ _)).
    eapply refines_bind; [by apply refines_deref|]. intros σ1 ? ? Hs1 -> _.
    eapply refines_bind; [apply refines_deref, (lookup_weaken _ _ _ _ Hw Hs1)|].
    intros σ2 ? ? Hs2 -> _.
    eapply refines_bind;
      [apply refines_deref, (lookup_weaken _ _ _ _ Hb), (transitivity Hs1 Hs2)|].
    intros σ3 ? ? _ -> _.
    eapply refines_bind; [apply refines_pure|]. intros σ4 ? r _ -> _.
    apply refines_alloc.
  - destruct (mapM (read σ) vs); [|done]. injection Hx as <-.
    apply (refines_raise points_to).
  - injection Hx as <-. apply (refines_raise points_to).
Qed.

Lemma refines_unpack2 σ v w :
  reads σ v w → refines reads2 σ (R_unpack2 v) (unpack2 w).
Proof.
  unfold reads. intros Hv. destruct v as [l|vs|name]; simpl in Hv.
  - destruct (σ !! l) as [t|] eqn:Hl; [|done]. injection Hv as <-.
    cbn [R_unpack2 unpack2].
    match goal with |- refines _ _ _ ?p => replace p with (Ok t ≫= λ _, p) by done end.
    eapply refines_bind; [by apply refines_deref|]. intros σ1 ? ? Hs1 -> [= <-].
    destruct (shape t) as [|d0 rest]; [apply (refines_raise reads2)|].
    case_decide; [|apply (refines_raise reads2)].
    match goal with |- refines _ _ _ (Ok (VTensor ?t0, VTensor ?t1)) =>
      change (Ok (VTensor t0, VTensor t1))
        with (Ok t0 ≫= λ a, Ok t1 ≫= λ b, Ok (VTensor a, VTensor b)
              : res (value R * value R)) end.
    eapply refines_bind; [apply refines_alloc|]. intros σ2 l0 t0 _ Hl0 _.
    eapply refines_bind; [apply refines_alloc|]. intros σ3 l1 t1 Hs3 Hl1 _.
    apply refines_ret. unfold reads2, reads, points_to in *. simpl.
    by rewrite (lookup_weaken _ _ _ _ Hl0 Hs3), Hl1.
  - destruct (mapM (read σ) vs) as [ws|] eqn:Hws; [|done]. injection Hv as <-.
    apply mapM_Some in Hws.
    destruct Hws as [|a a' ? ? Ha [|b b' ? ? Hb [|]]];
      try apply (refines_raise reads2).
    by apply refines_ret.
  - injection Hv as <-. apply (refines_raise reads2).
Qed.

Lemma refines_load_global σ0 σ (G : gmap string rvalue) name :
  σ0 ⊆ σ → map_Forall (λ _ v, is_Some (read σ0 v)) G →
  refines reads σ (R_load_global G name) (load_global (omap (read σ0) G) name).
Proof.
  intros Hs HG. unfold R_load_global, load_global, refines, lift.
  rewrite lookup_omap. destruct (G !! name) as [v|] eqn:Hv; [|done].
  destruct (HG _ _ Hv) as [w Hw]. simpl. rewrite Hw. simpl.
  split; [done|]. by apply (read_mono σ0).
Qed.

Lemma refines_mapM_alloc σ (ts : list (tensor R)) :
  refines (λ σ', Forall2 (points_to σ')) σ (mapM alloc ts) (Ok ts).
Proof.
  revert σ. induction ts as [|t ts IH]; intros σ; [by split|].
  cbn [mapM].
  change (Ok (t :: ts)) with (Ok t ≫= λ t, Ok ts ≫= λ ts, Ok (t :: ts)).
  eapply refines_bind; [apply refines_alloc|]. intros σ1 l ? _ Hl _.
  eapply refines_bind; [apply IH|]. intros σ2 ls ? Hs2 Hls _.
  apply refines_ret. constructor; [|done].
  exact (lookup_weaken _ _ _ _ Hl Hs2).
Qed.

Lemma refines_chunk1 σ l t n :
  points_to σ l t →
  refines (λ σ', Forall2 (points_to σ')) σ (R_chunk1 l n) (chunk1 t n).
Proof.
  intros Hl. unfold R_chunk1.
  replace (chunk1 t n) with (Ok t ≫= λ t, chunk1 t n ≫= λ ts, Ok ts)
    by (cbn [mbind res_bind]; by destruct (chunk1 t n)).
  eapply refines_bind; [by apply refines_deref|]. intros σ1 ? ? _ -> _.
  eapply refines_bind; [apply refines_pure|]. intros σ2 ? ts _ -> _.
  apply refines_mapM_alloc.
Qed.

Lemma refines_getitem σ (ls : list nat) (ts : list (tensor R)) i :
  Forall2 (points_to σ) ls ts →
  refines points_to σ (lift (getitem ls i)) (getitem ts i).
Proof.
  intros Hall. unfold refines, lift, getitem.
  destruct (ls !! i) as [l|] eqn:Hl.
  - destruct (Forall2_lookup_l _ _ _ _ _ Hall Hl) as (t & -> & Hlt). by split.
  - apply lookup_ge_None in Hl. rewrite (Forall2_length _ _ _ Hall) in Hl.
    apply lookup_ge_None in Hl. by rewrite Hl.
Qed.

Lemma refines_as_tensor σ v w :
  reads σ v w → refines points_to σ (R_as_tensor v) (as_tensor w).
Proof.
  unfold reads. intros Hv. destruct v as [l|vs|name]; simpl in Hv.
  - destruct (σ !! l) as [t|] eqn:Hl; [|done]. injection Hv as <-. by split.
  - destruct (mapM (read σ) vs); [|done]. injection Hv as <-.
    apply (refines_raise points_to).
  - injection Hv as <-. apply (refines_raise points_to).
Qed.

End store_facts.

Section store_refinement.
Context {R : Type} `{Scalar R}.
Implicit Types (σ : heap R).

Lemma points_to_mono σ σ' l (t : tensor R) :
  σ ⊆ σ' → points_to σ l t → points_to σ' l t.
Proof. intros Hs Hl. exact (lookup_weaken _ _ _ _ Hl Hs). Qed.

Lemma reads_mono σ σ' v (w : value R) : σ ⊆ σ' → reads σ v w → reads σ' v w.
Proof. apply read_mono. Qed.

Lemma Forall2_points_to_mono σ σ' ls (ts : list (tensor R)) :
  σ ⊆ σ' → Forall2 (points_to σ) ls ts → Forall2 (points_to σ') ls ts.
Proof.
  intros Hs Hall. eapply Forall2_impl; [done|].
  intros l t. by apply points_to_mono.
Qed.

(** Carries what is known of a store over to a larger one. *)
Ltac advance Hs :=
  match type of Hs with
  | ?s ⊆ _ =>
      repeat match goal with
      | Hp : points_to s _ _ |- _ => apply (points_to_mono _ _ _ _ Hs) in Hp
      | Hr : reads s _ _ |- _ => apply (reads_mono _ _ _ _ Hs) in Hr
      | Hf : Forall2 (points_to s) _ _ |- _ =>
          apply (Forall2_points_to_mono _ _ _ _ Hs) in Hf
      | Hl : read_linear s _ = Some _ |- _ =>
          apply (read_linear_mono _ _ _ _ Hs) in Hl
      end
  end.

(** A store step that computes what the pure code names with a [let]. *)
Lemma refines_op1_let {A B} (rel : heap R → A → B → Prop) σ f l t k q :
  points_to σ l t →
  (∀ σ' l', σ ⊆ σ' → points_to σ' l' (f t) → refines rel σ' (k l') q) →
  refines rel σ (R_op1 (λ t, Ok (f t)) l ≫= k) q.
Proof.
  intros Hl Hk.
  replace q with (Ok (f t) ≫= λ _ : tensor R, q) by done.
  eapply refines_bind; [by apply (refines_op1 σ (λ t, Ok (f t)))|].
  intros σ' l' ? Hs Hl' [= <-]. by apply Hk.
Qed.

Lemma refines_gates σ lw w c vc :
  points_to σ lw w → reads σ c vc →
  refines reads σ (R_LSTMCell_gates lw c) (LSTMCell_gates w vc).
Proof.
  intros Hw Hc. unfold R_LSTMCell_gates, LSTMCell_gates. cbv zeta.
  eapply refines_bind; [by apply refines_chunk1|].
  intros σ1 ls ts Hs1 Hgates _. cbn beta in Hgates. advance Hs1.
  eapply refines_bind; [by apply refines_getitem|].
  intros σ2 l0 g0 Hs2 Hg0 _. advance Hs2.
  apply refines_op1_let with (t := g0); [done|].
  intros σ3 li Hs3 Hi. advance Hs3.
  eapply refines_bind; [by apply refines_getitem|].
  intros σ4 l1 g1 Hs4 Hg1 _. advance Hs4.
  apply refines_op1_let with (t := g1); [done|].
  intros σ5 lf Hs5 Hf. advance Hs5.
  eapply refines_bind; [by apply refines_getitem|].
  intros σ6 l2 g2 Hs6 Hg2 _. advance Hs6.
  apply refines_op1_let with (t := g2); [done|].
  intros σ7 lo Hs7 Ho. advance Hs7.
  eapply refines_bind; [by apply refines_getitem|].
  intros σ8 l3 g3 Hs8 Hg3 _. advance Hs8.
  apply refines_op1_let with (t := g3); [done|].
  intros σ9 lg Hs9 Hg. advance Hs9.
  eapply refines_bind; [by apply refines_as_tensor|].
  intros σ10 lc tc Hs10 Hlc _. advance Hs10.
  eapply refines_bind; [by apply refines_op2|].
  intros σ11 lfc fc Hs11 Hfc _. advance Hs11.
  eapply refines_bind; [by apply refines_op2|].
  intros σ12 lig ig Hs12 Hig _. advance Hs12.
  eapply refines_bind; [by apply refines_op2|].
  intros σ13 lnc nc Hs13 Hnc _. advance Hs13.
  apply refines_op1_let with (t := nc); [done|].
  intros σ14 lth Hs14 Hth. advance Hs14.
  eapply refines_bind; [by apply refines_op2|].
  intros σ15 lnh nh Hs15 Hnh _. advance Hs15.
  apply refines_ret. unfold reads, points_to in *. simpl.
  by rewrite Hnh, Hnc.
Qed.

Lemma refines_forward σ G self vself x vx st vst :
  map_Forall (λ _ v, is_Some (read σ v)) G →
  read_cell σ self = Some vself → reads σ x vx → reads σ st vst →
  refines reads σ (R_LSTMCell_forward G self x st)
    (LSTMCell_forward (omap (read σ) G) vself vx vst).
Proof.
  intros HG Hself Hx Hst. unfold read_cell in Hself.
  destruct (read_linear σ (rinput_layer self)) as [vin|] eqn:Hin; [|done].
  destruct (read_linear σ (rhidden_layer self)) as [vhid|] eqn:Hhid; [|done].
  injection Hself as <-.
  unfold R_LSTMCell_forward, LSTMCell_forward.
  eapply refines_bind; [by apply refines_unpack2|].
  intros σ1 [hs cs] [vhs vcs] Hs1 [Hhs Hcs] _. cbn [fst snd] in Hhs, Hcs.
  advance Hs1.
  eapply refines_bind; [by apply refines_Linear_call|].
  intros σ2 la a Hs2 Ha _. advance Hs2.
  eapply refines_bind;
    [by apply refines_load_global; [by etrans|]|].
  intros σ3 ph vph Hs3 Hph _. advance Hs3.
  eapply refines_bind; [by apply refines_Linear_call|].
  intros σ4 lb b Hs4 Hb _. advance Hs4.
  eapply refines_bind; [by apply refines_op2|].
  intros σ5 lw w Hs5 Hw _. advance Hs5.
  by apply refines_gates.
Qed.

End store_refinement.

Section store_theorems.
Context {R : Type} `{Scalar R}.
Implicit Types (σ : heap R).

Lemma refines_read_res σ m (p : res (value R)) σ1 r1 :
  refines reads σ m p → m σ = (σ1, r1) →
  σ ⊆ σ1 ∧ read_res σ1 r1 = Some <$> p.
Proof.
  unfold refines, reads, read_res. intros Href Hm. rewrite Hm in Href.
  destruct r1 as [v|e], p as [w|e']; try done.
  - destruct Href as [Hs Hv]. split; [done|].
    unfold fmap, res_fmap. by rewrite Hv.
  - by destruct Href as [Hs ->].
Qed.

Lemma read_globals_mono σ σ' (G : gmap string rvalue) :
  σ ⊆ σ' → map_Forall (λ _ v, is_Some (read σ v)) G →
  omap (read σ') G = omap (read σ) G ∧
  map_Forall (λ _ v, is_Some (read σ' v)) G.
Proof.
  intros Hs HG. split.
  - apply map_eq. intros name. rewrite !lookup_omap.
    destruct (G !! name) as [v|] eqn:Hv; [|done]. simpl.
    destruct (HG _ _ Hv) as [w Hw]. by rewrite Hw, (read_mono _ _ _ _ Hs Hw).
  - intros name v Hv. destruct (HG _ _ Hv) as [w Hw].
    exists w. by apply (read_mono σ).
Qed.

(** C8: a call of [LSTMCell.forward] on a store only adds objects to it.
    Every object of the store before the call is unchanged after it: the
    current input, the previous state and the weights and biases of the
    cell read as before. The outcome, with the returned references
    resolved, is the one the pure [LSTMCell_forward] computes from the
    values of the arguments, so that calling again on the same arguments
    gives the same outcome. *)
Theorem LSTMCell_forward_no_side_effects σ G self vself x vx st vst σ1 r1 :
  map_Forall (λ _ v, is_Some (read σ v)) G →
  read_cell σ self = Some vself → read σ x = Some vx → read σ st = Some vst →
  R_LSTMCell_forward G self x st σ = (σ1, r1) →
  (∀ l t, σ !! l = Some t → σ1 !! l = Some t) ∧
  read σ1 x = Some vx ∧ read σ1 st = Some vst ∧
  read_cell σ1 self = Some vself ∧
  read_res σ1 r1 = Some <$> LSTMCell_forward (omap (read σ) G) vself vx vst ∧
  ∀ σ2 r2,
    R_LSTMCell_forward G self x st σ1 = (σ2, r2) →
    read_res σ2 r2 = read_res σ1 r1.
Proof.
  intros HG Hself Hx Hst Hrun.
  pose proof (refines_forward σ G self vself x vx st vst HG Hself Hx Hst) as Href.
  destruct (refines_read_res _ _ _ _ _ Href Hrun) as [Hs Hr1].
  pose proof (read_mono _ _ _ _ Hs Hx) as Hx1.
  pose proof (read_mono _ _ _ _ Hs Hst) as Hst1.
  pose proof (read_cell_mono _ _ _ _ Hs Hself) as Hself1.
  split_and!; try done.
  - intros l t Hl. exact (lookup_weaken _ _ _ _ Hl Hs).
  - intros σ2 r2 Hrun2.
    destruct (read_globals_mono σ σ1 G Hs HG) as [HG1 HG1'].
    pose proof (refines_forward σ1 G self vself x vx st vst HG1' Hself1 Hx1 Hst1)
      as Href2.
    destruct (refines_read_res _ _ _ _ _ Href2 Hrun2) as [_ Hr2].
    by rewrite Hr2, HG1, Hr1.
Qed.

End store_theorems.

(** * Evaluation on concrete inputs *)

Lemma LSTMCell_forward_raises_NameError_witness :
  LSTMCell_forward notebook_globals ex_cell1
    (VTensor (Tensor [2; 1] [5; 6]%Z)) ex_state1
  = Raise (NameError "previous_hidden").
Proof.
  apply (LSTMCell_forward_raises_NameError 1 1 ex_cell1 _ [2]).
  - repeat split; reflexivity.
  - reflexivity.
Defined.

(** C2: the scenario of the specification with [H = 2], [D = 1], a zero
    input and a zero state. With the globals the notebook defines the call
    raises [NameError] on line 177; line 187 is not reached and no new
    memory comes back. *)
Theorem zero_scenario_yields_no_memory :
  LSTMCell_forward notebook_globals ex_cell (VTensor ex_input)
    (VTuple [VTensor ex_hidden; VTensor ex_memory])
  = Raise (NameError "previous_hidden").
Proof. reflexivity. Qed.

(** C5: the single-step scenario of the specification with a previous
    memory of [[1]]. With the globals the notebook defines the call raises
    [NameError] on line 177, before any gate is computed: no gate and no
    hidden state exist whose components could lie in a range. *)
Theorem single_step_scenario_computes_no_gate :
  LSTMCell_forward notebook_globals ex_cell1
    (VTensor (Tensor [1; 1] [3%Z])) ex_state1
  = Raise (NameError "previous_hidden").
Proof. reflexivity. Qed.



Lemma gate_chunk_assignment_witness :
  (∃ new_hidden new_cell,
     LSTMCell_gates ex_preactivation (VTensor ex_sym_memory)
     = Ok (VTuple [VTensor new_hidden;
                   VTuple [VTensor new_hidden; VTensor new_cell]]) ∧
     shape new_hidden = [1; 2] ∧ shape new_cell = [1; 2] ∧
     ∀ i j, i < 1 → j < 2 →
       ∃ w0 w1 w2 w3 c_prev,
         entry (4 * 2) ex_preactivation i j = Some w0 ∧
         entry (4 * 2) ex_preactivation i (2 + j) = Some w1 ∧
         entry (4 * 2) ex_preactivation i (2 * 2 + j) = Some w2 ∧
         entry (4 * 2) ex_preactivation i (3 * 2 + j) = Some w3 ∧
         entry 2 ex_sym_memory i j = Some c_prev ∧
         let input_gate := Sigmoid w0 in
         let forget_gate := Sigmoid w1 in
         let output_gate := Sigmoid w2 in
         let cell_gate := Tanh w3 in
         let c_new := Add (Mul forget_gate c_prev) (Mul input_gate cell_gate) in
         entry 2 new_cell i j = Some c_new ∧
         entry 2 new_hidden i j = Some (Mul output_gate (Tanh c_new))) ∧
  LSTMCell_gates ex_preactivation (VTensor ex_sym_memory)
  = Ok (VTuple [VTensor ex_sym_new_hidden;
                VTuple [VTensor ex_sym_new_hidden; VTensor ex_sym_new_cell]]).
Proof.
  split.
  - exact (gate_chunk_assignment 1 2 ex_preactivation ex_sym_memory
             eq_refl eq_refl eq_refl eq_refl).
  - reflexivity.
Defined.

Lemma LSTMLayer_forward_threads_witness :
  ∃ o,
    LSTMLayer_forward (LSTMCell_call ex_globals1 ex_cell1) ex_sequence ex_state1 tt
    = (tt, Ok (VTuple [VTensor o; ex_final_state])) ∧
    shape o = [1; 2; 1] ∧
    unbind1 o = Ok ex_outputs ∧ length ex_outputs = 2 ∧
    LSTMLayer_forward (logging (LSTMCell_call ex_globals1 ex_cell1))
      ex_sequence ex_state1 (tt, [])
    = ((tt, ex_calls), Ok (VTuple [VTensor o; ex_final_state])) ∧
    ex_calls.*1 = [VTensor (Tensor [1; 1] [3%Z]); VTensor (Tensor [1; 1] [(-4)%Z])] ∧
    length ex_calls = 2.
Proof.
  apply (LSTMLayer_forward_threads (LSTMCell_call ex_globals1 ex_cell1) tt
           ex_sequence [Tensor [1; 1] [3%Z]; Tensor [1; 1] [(-4)%Z]]
           ex_state1 ex_calls ex_outputs ex_final_state tt 1 [1]).
  - reflexivity.
  - discriminate.
  - eapply threaded_step; [reflexivity|reflexivity|].
    eapply threaded_step; [reflexivity|reflexivity|].
    apply threaded_nil.
  - repeat constructor.
  - repeat constructor.
Defined.

Lemma prefix_consistency_witness :
  let cell := LSTMCell_call ex_globals1 ex_cell1 in
  let xs := [Tensor [1; 1] [3%Z]; Tensor [1; 1] [(-4)%Z]] in
  let after_k := for_loop (loop_body cell xs) (seq 0 1) ([], ex_state1) in
  for_loop (loop_body cell (take 1 xs)) (seq 0 (length (take 1 xs)))
    ([], ex_state1) tt
  = after_k tt ∧
  for_loop (loop_body cell xs) (seq 0 (length xs)) ([], ex_state1) tt
  = (after_k ≫= for_loop (loop_body cell xs) (seq 1 (length xs - 1))) tt ∧
  LSTMLayer_forward cell ex_prefix ex_state1 tt
  = (after_k ≫= λ acc, lift (finish acc)) tt ∧
  ∀ o state_T c_T,
    LSTMLayer_forward cell ex_sequence ex_state1 tt
    = (c_T, Ok (VTuple [VTensor o; state_T])) →
    ∃ outs outs_k state_k c_k o',
      after_k tt = (c_k, Ok (outs_k, state_k)) ∧
      LSTMLayer_forward cell ex_prefix ex_state1 tt
      = (c_k, Ok (VTuple [VTensor o'; state_k])) ∧
      stack_values outs = Ok o ∧ length outs = length xs ∧
      outs_k = take 1 outs ∧ stack_values outs_k = Ok o'.
Proof.
  apply (prefix_consistency (LSTMCell_call ex_globals1 ex_cell1) tt
           ex_sequence ex_prefix).
  - reflexivity.
  - reflexivity.
  - simpl. lia.
Defined.

Lemma LSTMCell_forward_no_side_effects_witness :
  let run := R_LSTMCell_forward ex_rglobals ex_rcell (VTensor 0) ex_rstate in
  let σ1 := (run ex_heap).1 in
  let r1 := (run ex_heap).2 in
  (∀ l t, ex_heap !! l = Some t → σ1 !! l = Some t) ∧
  read σ1 (VTensor 0) = Some (VTensor ex_input) ∧
  read σ1 ex_rstate = Some (VTuple [VTensor ex_hidden; VTensor ex_memory]) ∧
  read_cell σ1 ex_rcell = Some ex_cell ∧
  read_res σ1 r1
  = Some <$> LSTMCell_forward (omap (read ex_heap) ex_rglobals) ex_cell
               (VTensor ex_input) (VTuple [VTensor ex_hidden; VTensor ex_memory]) ∧
  ∀ σ2 r2, run σ1 = (σ2, r2) → read_res σ2 r2 = read_res σ1 r1.
Proof.
  apply (LSTMCell_forward_no_side_effects ex_heap ex_rglobals ex_rcell ex_cell
           (VTensor 0) (VTensor ex_input) ex_rstate
           (VTuple [VTensor ex_hidden; VTensor ex_memory])).
  - apply map_Forall_singleton. vm_compute. eexists. reflexivity.
  - reflexivity.
  - reflexivity.
  - reflexivity.
  - vm_compute. reflexivity.
Defined.

(** * Further properties of the layer *)

Section layer_more.
Context {R : Type} `{Scalar R} {C : Type}.
Implicit Types (cell : cell_fn R C) (xs : list (tensor R)).

(** The first iterations only look at the first inputs. *)
Lemma loop_prefix cell xs1 xs2 acc c :
  for_loop (loop_body cell (xs1 ++ xs2)) (seq 0 (length xs1)) acc c
  = for_loop (loop_body cell xs1) (seq 0 (length xs1)) acc c.
Proof.
  apply for_loop_ext, Forall_forall. intros i Hi%elem_of_seq acc1 c1.
  unfold loop_body, getitem. by rewrite lookup_app_l by lia.
Qed.

Lemma threaded_app cell c xs1 xs2 state calls1 outs1 s1 c1 calls2 outs2 s2 c2 :
  threaded cell c xs1 state calls1 outs1 s1 c1 →
  threaded cell c1 xs2 s1 calls2 outs2 s2 c2 →
  threaded cell c (xs1 ++ xs2) state (calls1 ++ calls2) (outs1 ++ outs2) s2 c2.
Proof.
  induction 1 as [c state|c x xs state c' r output state1 calls outs
                    state' c'' Hcall Hunpack _ IH]; intros H2; [done|].
  cbn [app]. econstructor; eauto.
Qed.

(** The loop up to and including the first iteration that does not
    complete. *)
Lemma loop_stops cell c xs1 x xs2 state calls outs s_t c_t c' e :
  threaded cell c xs1 state calls outs s_t c_t →
  loop_body cell (xs1 ++ x :: xs2) (length xs1) (outs, s_t) c_t = (c', Raise e) →
  for_loop (loop_body cell (xs1 ++ x :: xs2))
    (seq 0 (length (xs1 ++ x :: xs2))) ([], state) c
  = (c', Raise e).
Proof.
  intros Hthr Hbody.
  rewrite length_app. cbn [length]. rewrite seq_app, for_loop_app.
  unfold mbind at 1, py_bind at 1. rewrite loop_prefix.
  pose proof (loop_of_threaded cell [] xs1 c [] state calls outs s_t c_t Hthr)
    as Hloop.
  cbn [app length] in Hloop. rewrite Hloop.
  cbn [seq for_loop Nat.add]. unfold mbind at 1, py_bind at 1.
  by rewrite Hbody.
Qed.

End layer_more.

(** X1: [LSTMLayer.forward] has no handler around the call of the cell.
    When the cell raises at some step, after the earlier steps have gone
    through, the layer raises that exception; the cell has then been
    called on the inputs up to that step, in order, and on none after
    it. *)
Theorem LSTMLayer_forward_cell_raises {R C} (cell : cell_fn R C) c input
    xs1 x xs2 state calls outs s_t c_t c' e :
  unbind1 input = Ok (xs1 ++ x :: xs2) →
  threaded cell c xs1 state calls outs s_t c_t →
  cell (VTensor x) s_t c_t = (c', Raise e) →
  LSTMLayer_forward cell input state c = (c', Raise e) ∧
  LSTMLayer_forward (logging cell) input state (c, [])
  = ((c', calls ++ [(VTensor x, s_t)]), Raise e).
Proof.
  intros Hxs Hthr Hcall. split.
  - rewrite (LSTMLayer_forward_unfold _ _ _ _ _ Hxs). unfold mbind, py_bind.
    rewrite (loop_stops cell c xs1 x xs2 state calls outs s_t c_t c' e); [done..|].
    rewrite (loop_body_at _ _ _ x) by (by apply list_lookup_middle).
    by rewrite Hcall.
  - rewrite (LSTMLayer_forward_unfold _ _ _ _ _ Hxs). unfold mbind, py_bind.
    rewrite (loop_stops (logging cell) (c, []) xs1 x xs2 state calls outs s_t
               (c_t, calls) (c', calls ++ [(VTensor x, s_t)]) e); [done| |].
    + by apply (threaded_logging cell c xs1 state calls outs s_t c_t []).
    + rewrite (loop_body_at _ _ _ x) by (by apply list_lookup_middle).
      unfold logging. cbn [fst snd]. by rewrite Hcall.
Qed.

(** X2: line 219 unpacks what the cell returns into two names. When the
    cell returns something that does not unpack into two, the layer
    raises the error of the unpacking ([ValueError] for a sequence of
    another length, [TypeError] for something that cannot be iterated) at
    that step and calls the cell no more. *)
Theorem LSTMLayer_forward_bad_return {R C} (cell : cell_fn R C) c input
    xs1 x xs2 state calls outs s_t c_t c' r e :
  unbind1 input = Ok (xs1 ++ x :: xs2) →
  threaded cell c xs1 state calls outs s_t c_t →
  cell (VTensor x) s_t c_t = (c', Ok r) → unpack2 r = Raise e →
  LSTMLayer_forward cell input state c = (c', Raise e) ∧
  LSTMLayer_forward (logging cell) input state (c, [])
  = ((c', calls ++ [(VTensor x, s_t)]), Raise e).
Proof.
  intros Hxs Hthr Hcall Hr. split.
  - rewrite (LSTMLayer_forward_unfold _ _ _ _ _ Hxs). unfold mbind, py_bind.
    rewrite (loop_stops cell c xs1 x xs2 state calls outs s_t c_t c' e); [done..|].
    rewrite (loop_body_at _ _ _ x) by (by apply list_lookup_middle).
    by rewrite Hcall, Hr.
  - rewrite (LSTMLayer_forward_unfold _ _ _ _ _ Hxs). unfold mbind, py_bind.
    rewrite (loop_stops (logging cell) (c, []) xs1 x xs2 state calls outs s_t
               (c_t, calls) (c', calls ++ [(VTensor x, s_t)]) e); [done| |].
    + by apply (threaded_logging cell c xs1 state calls outs s_t c_t []).
    + rewrite (loop_body_at _ _ _ x) by (by apply list_lookup_middle).
      unfold logging. cbn [fst snd]. by rewrite Hcall, Hr.
Qed.

Section layer_returns.
Context {R : Type} `{Scalar R} {C : Type}.
Implicit Types (cell : cell_fn R C) (xs : list (tensor R)).

Lemma stack_values_Ok (outs : list (value R)) o :
  stack_values outs = Ok o ↔ ∃ ts, outs = VTensor <$> ts ∧ stack1 ts = Ok o.
Proof.
  unfold stack_values. split.
  - destruct (mapM as_tensor outs) as [ts|] eqn:Hts; [|done].
    cbn [mbind res_bind]. intros Hst. exists ts.
    by rewrite (mapM_as_tensor_Ok outs ts).
  - intros (ts & -> & Hst). by rewrite mapM_as_tensor.
Qed.

(** What a returning call has gone through. *)
Lemma LSTMLayer_forward_Ok_inv cell c input state c' v :
  LSTMLayer_forward cell input state c = (c', Ok v) →
  ∃ xs calls ts state' o d0 rest,
    unbind1 input = Ok xs ∧ xs ≠ [] ∧
    threaded cell c xs state calls (VTensor <$> ts) state' c' ∧
    Forall (λ t, shape t = d0 :: rest) ts ∧ stack1 ts = Ok o ∧
    shape o = d0 :: length xs :: rest ∧
    v = VTuple [VTensor o; state'].
Proof.
  intros Hrun.
  destruct (unbind1 input) as [xs|e] eqn:Hxs;
    [|by unfold LSTMLayer_forward, lift, mbind, py_bind in Hrun; rewrite Hxs in Hrun].
  rewrite (LSTMLayer_forward_unfold _ _ _ _ _ Hxs) in Hrun.
  unfold mbind, py_bind in Hrun.
  destruct (for_loop (loop_body cell xs) (seq 0 (length xs)) ([], state) c)
    as [c1 [[outs state']|e]] eqn:Hloop; [|done].
  unfold lift, finish in Hrun. cbn [fst snd] in Hrun.
  destruct (stack_values outs) as [o|e] eqn:Hst; [|done].
  cbn [mbind res_bind] in Hrun. injection Hrun as <- <-.
  apply (threaded_of_loop cell [] xs c [] state) in Hloop
    as (calls & outs' & Houts & Hthr).
  cbn [fst snd app] in Houts, Hthr. subst outs'.
  apply stack_values_Ok in Hst as (ts & -> & Hst).
  pose proof (threaded_lengths _ _ _ _ _ _ _ _ Hthr) as (_ & _ & Hlen).
  rewrite length_fmap in Hlen.
  pose proof Hst as (d0 & rest & Hne & Hshape & Ho)%stack1_Ok.
  exists xs, calls, ts, state', o, d0, rest. split_and!; try done.
  - intros ->. destruct ts; [done|discriminate].
  - rewrite Ho. cbn [shape]. by rewrite Hlen.
Qed.

End layer_returns.

(** X3: a call of [LSTMLayer.forward] that returns has been given at
    least one step, the cell has returned a pair at every step of the
    recurrence, every emitted value is a tensor and all of them have one
    shape [d0 :: rest]; what is returned is their stack, of shape
    [d0 :: T :: rest], with the state of the last step. *)
Theorem LSTMLayer_forward_returns_only_through_the_recurrence {R C}
    (cell : cell_fn R C) c input state c' v :
  LSTMLayer_forward cell input state c = (c', Ok v) →
  ∃ xs calls ts state' o d0 rest,
    unbind1 input = Ok xs ∧ xs ≠ [] ∧
    threaded cell c xs state calls (VTensor <$> ts) state' c' ∧
    Forall (λ t, shape t = d0 :: rest) ts ∧ stack1 ts = Ok o ∧
    shape o = d0 :: length xs :: rest ∧
    v = VTuple [VTensor o; state'].
Proof. apply LSTMLayer_forward_Ok_inv. Qed.

(** X4: a sequence cut in two. Running the layer on the first part, then
    on the second part from the state (and with the cell) the first run
    left, is running it on the whole: when both runs return, with outputs
    of one shape, the run on the whole sequence returns the final state
    of the second run and the stack of the outputs of the first run
    followed by those of the second. *)
Theorem LSTMLayer_forward_in_two_parts {R C} (cell : cell_fn R C) c0 input
    in1 in2 xs1 xs2 s0 c1 o1 s1 c2 o2 s2 d0 rest :
  unbind1 input = Ok (xs1 ++ xs2) →
  unbind1 in1 = Ok xs1 → unbind1 in2 = Ok xs2 →
  LSTMLayer_forward cell in1 s0 c0 = (c1, Ok (VTuple [VTensor o1; s1])) →
  LSTMLayer_forward cell in2 s1 c1 = (c2, Ok (VTuple [VTensor o2; s2])) →
  shape o1 = d0 :: length xs1 :: rest → shape o2 = d0 :: length xs2 :: rest →
  ∃ o ts1 ts2,
    LSTMLayer_forward cell input s0 c0 = (c2, Ok (VTuple [VTensor o; s2])) ∧
    stack1 ts1 = Ok o1 ∧ stack1 ts2 = Ok o2 ∧ stack1 (ts1 ++ ts2) = Ok o ∧
    shape o = d0 :: (length xs1 + length xs2) :: rest.
Proof.
  intros Hxs Hxs1 Hxs2 Hrun1 Hrun2 Hs1 Hs2.
  apply LSTMLayer_forward_Ok_inv in Hrun1
    as (xs1' & calls1 & ts1 & s1' & o1' & d1 & r1 & Hx1 & Hne1 & Hthr1
        & Hsh1 & Hst1 & Ho1 & [= <- <-]).
  apply LSTMLayer_forward_Ok_inv in Hrun2
    as (xs2' & calls2 & ts2 & s2' & o2' & d2 & r2 & Hx2 & Hne2 & Hthr2
        & Hsh2 & Hst2 & Ho2 & [= <- <-]).
  rewrite Hxs1 in Hx1. injection Hx1 as <-.
  rewrite Hxs2 in Hx2. injection Hx2 as <-.
  rewrite Hs1 in Ho1. injection Ho1 as <- <-.
  rewrite Hs2 in Ho2. injection Ho2 as <- <-.
  pose proof (threaded_app _ _ _ _ _ _ _ _ _ _ _ _ _ Hthr1 Hthr2) as Hthr.
  rewrite <-fmap_app in Hthr.
  pose proof (threaded_lengths _ _ _ _ _ _ _ _ Hthr) as (_ & _ & Hlen).
  rewrite length_fmap, !length_app in Hlen.
  assert (∃ o, stack1 (ts1 ++ ts2) = Ok o ∧
               shape o = d0 :: (length xs1 + length xs2) :: rest)
    as (o & Hst & Ho).
  { eexists. split.
    - apply stack1_Ok. exists d0, rest. split_and!; [|by apply Forall_app|done].
      destruct ts1; [|done]. by destruct xs1; [|inversion Hthr1].
    - cbn [shape]. by rewrite length_app, Hlen. }
  exists o, ts1, ts2. split_and!; try done.
  rewrite (LSTMLayer_forward_unfold _ _ _ _ _ Hxs). unfold mbind, py_bind.
  pose proof (loop_of_threaded cell [] _ c0 [] s0 _ _ s2 c2 Hthr) as Hloop.
  cbn [app length] in Hloop. rewrite Hloop.
  unfold lift, finish, stack_values. cbn [fst snd].
  rewrite mapM_as_tensor. cbn [mbind res_bind]. by rewrite Hst.
Qed.

(** X8: outputs that do not stack. When the cell has returned a pair at
    every step but the emitted tensors are not all of the shape of the
    first one, [torch.stack] on line 222 fails: the call raises a size
    error after the cell has been called on every step, and the carried
    state is lost. *)
Theorem LSTMLayer_forward_ragged_outputs {R C} (cell : cell_fn R C) c input
    xs state calls t0 ts state' c' d0 rest :
  unbind1 input = Ok xs →
  threaded cell c xs state calls (VTensor <$> (t0 :: ts)) state' c' →
  shape t0 = d0 :: rest → ¬ Forall (λ t, shape t = shape t0) ts →
  LSTMLayer_forward cell input state c = (c', Raise (RuntimeError ShapeMismatch)) ∧
  LSTMLayer_forward (logging cell) input state (c, [])
  = ((c', calls), Raise (RuntimeError ShapeMismatch)) ∧
  length calls = length xs.
Proof.
  intros Hxs Hthr Ht0 Hrag.
  assert (finish (VTensor <$> (t0 :: ts), state')
          = Raise (RuntimeError ShapeMismatch)) as Hfin.
  { unfold finish, stack_values. cbn [fst snd].
    rewrite mapM_as_tensor. cbn [mbind res_bind]. unfold stack1.
    rewrite Ht0, decide_False; [done|].
    rewrite <-Ht0. intros [_ ?]%Forall_cons_1. by apply Hrag. }
  pose proof (threaded_lengths _ _ _ _ _ _ _ _ Hthr) as (_ & Hlen & _).
  split_and!; [| |done].
  - rewrite (LSTMLayer_forward_unfold _ _ _ _ _ Hxs). unfold mbind, py_bind.
    pose proof (loop_of_threaded cell [] _ c [] state _ _ state' c' Hthr) as Hloop.
    cbn [app length] in Hloop. by rewrite Hloop, <-Hfin.
  - rewrite (LSTMLayer_forward_unfold _ _ _ _ _ Hxs). unfold mbind, py_bind.
    pose proof (loop_of_threaded (logging cell) [] _ (c, []) [] state _ _ state'
                  (c', calls)
                  (threaded_logging cell c xs state calls _ state' c' [] Hthr))
      as Hloop.
    cbn [app length] in Hloop. by rewrite Hloop, <-Hfin.
Qed.

Section stack_unbind.
Context {R : Type}.
Implicit Types (t : tensor R).

Lemma join_blocks_rows (d : list R) m n sz :
  length d = m * (n * sz) →
  mjoin ((λ i, mjoin ((λ j, block sz (i * n + j) d) <$> seq 0 n)) <$> seq 0 m) = d.
Proof.
  intros Hlen.
  rewrite (fmap_seq_ext _ (λ i, block (n * sz) i d)).
  { by apply (join_blocks m). }
  intros i _.
  replace ((λ j, block sz (i * n + j) d) <$> seq 0 n)
    with ((λ k, block sz k d) <$> seq (i * n) n).
  - rewrite join_blocks_from. unfold block. do 2 f_equal. lia.
  - replace (seq (i * n) n) with (Nat.add (i * n) <$> seq 0 n)
      by (rewrite fmap_add_seq; f_equal; lia).
    by rewrite <-list_fmap_compose.
Qed.

(** Stacking the slices of a tensor along dimension 1 gives the tensor
    back. *)
Lemma stack1_unbind1 t d0 n rest :
  shape t = d0 :: S n :: rest → tensor_wf t →
  unbind1 t ≫= stack1 = Ok t.
Proof.
  destruct t as [s d]. unfold tensor_wf. cbn [shape data]. intros -> Hlen.
  cbn [numel foldr] in Hlen. fold (numel rest) in Hlen.
  set (inner := numel rest) in *.
  unfold unbind1. cbn [shape data mbind res_bind].
  set (xs := (λ j, select1 d0 (S n) rest j d) <$> seq 0 (S n)).
  assert (length xs = S n) as Hxs by (unfold xs; by rewrite length_fmap, length_seq).
  assert (Forall (λ t, shape t = d0 :: rest) xs) as Hshape.
  { unfold xs. apply Forall_fmap, Forall_true. done. }
  assert (∃ o, stack1 xs = Ok o) as [o Ho].
  { eexists. apply stack1_Ok. exists d0, rest. split_and!; [|done..].
    intros E. by rewrite E in Hxs. }
  rewrite Ho. f_equal.
  apply stack1_Ok in Ho as (d0' & rest' & _ & Hshape' & ->).
  assert (d0' = d0 ∧ rest' = rest) as [-> ->].
  { unfold xs in Hshape'. cbn [seq fmap list_fmap] in Hshape'.
    apply Forall_cons_1 in Hshape' as [E _]. by injection E. }
  rewrite Hxs. f_equal. fold inner.
  etrans; [|apply (join_blocks_rows d d0 (S n) inner); lia].
  f_equal. apply fmap_seq_ext. intros i Hi. f_equal.
  unfold xs. rewrite <-list_fmap_compose. apply fmap_seq_ext. intros j Hj.
  cbn [compose select1 data]. fold inner.
  apply block_join.
  - apply Forall_fmap, Forall_forall. intros i' Hi'%elem_of_seq. cbn.
    apply length_block. nia.
  - rewrite list_lookup_fmap, lookup_seq_lt by lia. done.
Qed.

End stack_unbind.

Lemma threaded_echo {R C} (c : C) (xs : list (tensor R)) state :
  threaded echo_cell c xs state
    ((λ x, (VTensor x, state)) <$> xs) (VTensor <$> xs) state c.
Proof.
  induction xs as [|x xs IH]; [constructor|].
  cbn [fmap list_fmap]. by econstructor.
Qed.

(** X5: the layer puts the outputs back where the inputs were. With a
    cell that emits its input and leaves the state alone, the call returns
    the input tensor itself, and the state it was given: [unbind(1)] on
    line 216 and [stack(dim=1)] on line 222 are inverse to each other on a
    tensor with at least one step. *)
Theorem LSTMLayer_forward_echo {R C} (input : tensor R) state (c : C) d0 n rest :
  shape input = d0 :: S n :: rest → tensor_wf input →
  LSTMLayer_forward echo_cell input state c
  = (c, Ok (VTuple [VTensor input; state])).
Proof.
  intros Hshape Hwf.
  pose proof (stack1_unbind1 input d0 n rest Hshape Hwf) as Hrt.
  destruct (unbind1 input) as [xs|e] eqn:Hxs; [|done].
  cbn [mbind res_bind] in Hrt.
  rewrite (LSTMLayer_forward_unfold _ _ _ _ _ Hxs). unfold mbind, py_bind.
  pose proof (loop_of_threaded echo_cell [] xs c [] state _ _ state c
                (threaded_echo c xs state)) as Hloop.
  cbn [app length] in Hloop. rewrite Hloop.
  unfold lift, finish, stack_values. cbn [fst snd].
  rewrite mapM_as_tensor. cbn [mbind res_bind]. by rewrite Hrt.
Qed.

(** * Further properties of the cell and of the two classes together *)

Section cell_more.
Context {R : Type} `{Scalar R}.
Implicit Types (G : gmap string (value R)) (self : LSTMCell R).

(** The projection of [nn.Linear] goes through on the shapes alone. *)
Lemma linear_returns (l : Linear R) x D O lead :
  shape (weight l) = [O; D] → shape x = lead ++ [D] → is_ok (linear l x) = true.
Proof.
  intros Hw Hx. unfold linear.
  by rewrite Hx, reverse_snoc, Hw, decide_True.
Qed.

(** X6: the hidden component of the state is never read. Whatever stands
    in its place, [LSTMCell.forward] gives the same outcome, and so does
    [LSTMLayer.forward] built on it for the hidden component of the
    initial state: line 175 binds it to [previous_hidden_state], which no
    later line mentions. *)
Theorem hidden_state_is_never_read G self x input h h' c :
  LSTMCell_forward G self x (VTuple [h; c])
  = LSTMCell_forward G self x (VTuple [h'; c]) ∧
  LSTMLayer_forward (LSTMCell_call G self) input (VTuple [h; c]) tt
  = LSTMLayer_forward (LSTMCell_call G self) input (VTuple [h'; c]) tt.
Proof.
  split; [done|].
  destruct (unbind1 input) as [xs|e] eqn:Hxs;
    [|by unfold LSTMLayer_forward, lift, mbind, py_bind; rewrite Hxs].
  rewrite !(LSTMLayer_forward_unfold _ _ _ _ _ Hxs).
  destruct xs as [|x0 xs]; [done|].
  cbn [length seq for_loop]. unfold mbind, py_bind.
  by rewrite !(loop_body_at _ _ _ x0) by done.
Qed.

(** X7: the object the notebook builds on line 233,
    [lstm = LSTMLayer(LSTMCell, 100, 100)], whatever values its parameters
    were drawn to. Run with the globals the notebook defines on an input
    of shape [(B, T, 100)] with at least one step and on any state pair,
    it raises [NameError]: the first call of the cell gets to the unbound
    name on line 177. *)
Theorem notebook_lstm_raises_NameError (draw : nat → nat → list R)
    B n (d : list R) hs cs :
  ∃ self,
    lstm draw = Ok self ∧
    LSTMLayer_forward (LSTMCell_call notebook_globals self)
      (Tensor [B; S n; 100] d) (VTuple [hs; cs]) tt
    = (tt, Raise (NameError "previous_hidden")).
Proof.
  eexists. split; [reflexivity|].
  set (self := LSTMCell_init draw 100 100).
  set (xs := (λ j, select1 B (S n) [100] j d) <$> seq 0 (S n)).
  rewrite (LSTMLayer_forward_unfold _ _ xs) by done.
  unfold xs at 2. rewrite length_fmap, length_seq.
  cbn [seq for_loop]. unfold mbind, py_bind.
  rewrite (loop_body_at _ _ _ (select1 B (S n) [100] 0 d)) by done.
  unfold LSTMCell_call, lift, LSTMCell_forward.
  cbn [unpack2 mbind res_bind Linear_call].
  pose proof (linear_returns (input_layer self) (select1 B (S n) [100] 0 d)
                100 (4 * 100) [B] eq_refl eq_refl) as Hlin.
  destruct (linear _ _) as [a|]; [|done]. cbn [mbind res_bind].
  by rewrite notebook_globals_previous_hidden.
Qed.

(** One step of the cell in a namespace that binds [previous_hidden]. *)
Lemma LSTMCell_step_ok G D Hd B self x P hs c :
  LSTMCell_wf D Hd self → shape x = [B; D] →
  G !! "previous_hidden" = Some (VTensor P) → shape P = [B; Hd] →
  shape c = [B; Hd] → tensor_wf c →
  ∃ h' c',
    LSTMCell_forward G self (VTensor x) (VTuple [hs; VTensor c])
    = Ok (VTuple [VTensor h'; VTuple [VTensor h'; VTensor c']]) ∧
    shape h' = [B; Hd] ∧ tensor_wf h' ∧ shape c' = [B; Hd] ∧ tensor_wf c'.
Proof.
  intros Hself Hx HG HP Hc Hcwf.
  destruct (LSTMCell_forward_bound G D Hd B self x P hs c)
    as (a & b & w & _ & _ & _ & Hw & Hwwf & -> & _); try done.
  rewrite (LSTMCell_gates_ok B Hd w c Hw Hwwf Hc Hcwf).
  assert (∀ k, k < 4 → tensor_wf (gate_block B Hd w k)) as Hg
    by (intros; by apply gate_block_wf).
  assert (tensor_wf (Tensor [B; Hd] (data c))) as Hcwf'
    by (by rewrite <-Hc; destruct c).
  eexists _, _. split; [done|].
  assert (tensor_wf
            (Tensor [B; Hd]
               (zip_with s_add
                  (zip_with s_mul (data (sigmoid (gate_block B Hd w 1))) (data c))
                  (zip_with s_mul (data (sigmoid (gate_block B Hd w 0)))
                     (data (tanh (gate_block B Hd w 3))))))) as Hnc.
  { apply zip_with_wf; apply zip_with_wf; try done;
      apply (tensor_map_wf _ (gate_block B Hd w _)), Hg; lia. }
  split_and!; try done.
  apply zip_with_wf.
  - apply (tensor_map_wf _ (gate_block B Hd w 2)), Hg; lia.
  - by apply (tensor_map_wf s_tanh) in Hnc.
Qed.

(** The recurrence of the layer on [LSTMCell] in such a namespace. *)
Lemma threaded_LSTMCell G D Hd B self P xs hs c :
  LSTMCell_wf D Hd self →
  G !! "previous_hidden" = Some (VTensor P) → shape P = [B; Hd] →
  Forall (λ x, shape x = [B; D]) xs →
  shape c = [B; Hd] → tensor_wf c →
  ∃ calls ts hs' c',
    threaded (LSTMCell_call G self) tt xs (VTuple [hs; VTensor c])
      calls (VTensor <$> ts) (VTuple [hs'; VTensor c']) tt ∧
    Forall (λ t, shape t = [B; Hd]) ts ∧ Forall tensor_wf ts ∧
    shape c' = [B; Hd] ∧ tensor_wf c' ∧
    (xs ≠ [] → ∃ h', last ts = Some h' ∧ hs' = VTensor h').
Proof.
  intros Hself HG HP Hxs. revert hs c.
  induction Hxs as [|x xs Hx _ IH]; intros hs c Hc Hcwf.
  { exists [], [], hs, c. split_and!; try done. constructor. }
  destruct (LSTMCell_step_ok G D Hd B self x P hs c)
    as (h1 & c1 & Hstep & Hh1 & Hh1wf & Hc1 & Hc1wf); try done.
  destruct (IH (VTensor h1) c1 Hc1 Hc1wf)
    as (calls & ts & hs' & c' & Hthr & Hsh & Hwf & Hc' & Hc'wf & Hlast).
  exists ((VTensor x, VTuple [hs; VTensor c]) :: calls), (h1 :: ts), hs', c'.
  split_and!; try done; try by constructor.
  - cbn [fmap list_fmap].
    apply (threaded_step _ tt x xs _ tt
             (VTuple [VTensor h1; VTuple [VTensor h1; VTensor c1]])
             (VTensor h1) (VTuple [VTensor h1; VTensor c1]));
      [|done|exact Hthr].
    unfold LSTMCell_call, lift. by rewrite Hstep.
  - intros _. destruct xs as [|x' xs].
    + inversion Hthr; subst. destruct ts; [|done]. by exists h1.
    + destruct Hlast as (h' & Hl & ->); [done|]. exists h'. split; [|done].
      destruct ts; [done|]. done.
Qed.

(** X9: the two classes together, in a namespace that binds
    [previous_hidden] to a tensor of shape [(B, Hd)]. On an input of shape
    [(B, T, D)] with [T >= 1] and an initial memory of shape [(B, Hd)] the
    layer returns: the output has shape [(B, T, Hd)], the two components of
    the final state have shape [(B, Hd)], and the hidden component of the
    final state is the last slice of the output along dimension 1. *)
Theorem LSTMLayer_on_LSTMCell_returns G D Hd B self P n (d : list R) hs c :
  LSTMCell_wf D Hd self →
  G !! "previous_hidden" = Some (VTensor P) → shape P = [B; Hd] →
  shape c = [B; Hd] → tensor_wf c →
  ∃ o ts h' c',
    LSTMLayer_forward (LSTMCell_call G self) (Tensor [B; S n; D] d)
      (VTuple [hs; VTensor c]) tt
    = (tt, Ok (VTuple [VTensor o; VTuple [VTensor h'; VTensor c']])) ∧
    shape o = [B; S n; Hd] ∧ shape h' = [B; Hd] ∧ shape c' = [B; Hd] ∧
    unbind1 o = Ok ts ∧ length ts = S n ∧ last ts = Some h'.
Proof.
  intros Hself HG HP Hc Hcwf.
  set (xs := (λ j, select1 B (S n) [D] j d) <$> seq 0 (S n)).
  assert (unbind1 (Tensor [B; S n; D] d) = Ok xs) as Hxs by done.
  assert (Forall (λ x, shape x = [B; D]) xs) as Hshape
    by (by apply Forall_fmap, Forall_true).
  assert (length xs = S n) as Hlen
    by (unfold xs; by rewrite length_fmap, length_seq).
  destruct (threaded_LSTMCell G D Hd B self P xs hs c)
    as (calls & ts & hs' & c' & Hthr & Hsh & Hwf & Hc' & Hc'wf & Hlast);
    try done.
  destruct Hlast as (h' & Hl & ->); [intros E; by rewrite E in Hlen|].
  pose proof (threaded_lengths _ _ _ _ _ _ _ _ Hthr) as (_ & _ & Hlts).
  rewrite length_fmap, Hlen in Hlts.
  assert (∃ o, stack1 ts = Ok o) as [o Hst].
  { eexists. apply stack1_Ok. exists B, [Hd]. split_and!; [|done..].
    intros E. by rewrite E in Hlts. }
  exists o, ts, h', c'. split_and!; try done.
  - rewrite (LSTMLayer_forward_unfold _ _ _ _ _ Hxs). unfold mbind, py_bind.
    pose proof (loop_of_threaded _ [] xs tt [] _ _ _ _ tt Hthr) as Hloop.
    cbn [app length] in Hloop. rewrite Hloop.
    unfold lift, finish, stack_values. cbn [fst snd].
    rewrite mapM_as_tensor. cbn [mbind res_bind]. by rewrite Hst.
  - apply stack1_Ok in Hst as (d0 & rest & _ & Hsh' & ->).
    destruct ts as [|t0 ts]; [done|].
    apply Forall_cons_1 in Hsh as [E1 _], Hsh' as [E2 _].
    rewrite E1 in E2. injection E2 as <- <-. cbn [shape]. by rewrite Hlts.
  - rewrite Forall_forall in Hsh. apply Hsh.
    apply last_Some in Hl as [ts' ->]. set_solver.
  - by apply unbind1_stack1.
Qed.

End cell_more.

(** * The further properties on concrete inputs *)

Lemma LSTMLayer_forward_cell_raises_witness :
  LSTMLayer_forward (LSTMCell_call notebook_globals ex_cell1) ex_sequence
    ex_state1 tt
  = (tt, Raise (NameError "previous_hidden")) ∧
  LSTMLayer_forward (logging (LSTMCell_call notebook_globals ex_cell1))
    ex_sequence ex_state1 (tt, [])
  = ((tt, [] ++ [(VTensor ex_step0, ex_state1)]),
     Raise (NameError "previous_hidden")).
Proof.
  apply (LSTMLayer_forward_cell_raises (LSTMCell_call notebook_globals ex_cell1)
           tt ex_sequence [] ex_step0 [ex_step1] ex_state1 [] [] ex_state1 tt).
  - reflexivity.
  - apply threaded_nil.
  - reflexivity.
Defined.

Lemma LSTMLayer_forward_bad_return_witness :
  LSTMLayer_forward ex_bare_cell ex_sequence ex_state1 tt
  = (tt, Raise ValueError) ∧
  LSTMLayer_forward (logging ex_bare_cell) ex_sequence ex_state1 (tt, [])
  = ((tt, [] ++ [(VTensor ex_step0, ex_state1)]), Raise ValueError).
Proof.
  apply (LSTMLayer_forward_bad_return ex_bare_cell tt ex_sequence
           [] ex_step0 [ex_step1] ex_state1 [] [] ex_state1 tt tt
           (VTensor ex_step0)).
  - reflexivity.
  - apply threaded_nil.
  - reflexivity.
  - reflexivity.
Defined.

Lemma LSTMLayer_forward_returns_only_through_the_recurrence_witness :
  ∃ xs calls ts state' o d0 rest,
    unbind1 ex_sequence = Ok xs ∧ xs ≠ [] ∧
    threaded (LSTMCell_call ex_globals1 ex_cell1) tt xs ex_state1 calls
      (VTensor <$> ts) state' tt ∧
    Forall (λ t, shape t = d0 :: rest) ts ∧ stack1 ts = Ok o ∧
    shape o = d0 :: length xs :: rest ∧
    VTuple [VTensor (Tensor [1; 2; 1] [1; 0]%Z); ex_final_state]
    = VTuple [VTensor o; state'].
Proof.
  apply (LSTMLayer_forward_returns_only_through_the_recurrence
           (LSTMCell_call ex_globals1 ex_cell1) tt ex_sequence ex_state1 tt).
  reflexivity.
Defined.

Lemma LSTMLayer_forward_in_two_parts_witness :
  ∃ o ts1 ts2,
    LSTMLayer_forward (LSTMCell_call ex_globals1 ex_cell1) ex_sequence
      ex_state1 tt
    = (tt, Ok (VTuple [VTensor o; ex_final_state])) ∧
    stack1 ts1 = Ok (Tensor [1; 1; 1] [1%Z]) ∧
    stack1 ts2 = Ok (Tensor [1; 1; 1] [0%Z]) ∧
    stack1 (ts1 ++ ts2) = Ok o ∧
    shape o = 1 :: (length [ex_step0] + length [ex_step1]) :: [1].
Proof.
  apply (LSTMLayer_forward_in_two_parts (LSTMCell_call ex_globals1 ex_cell1) tt
           ex_sequence ex_prefix ex_suffix [ex_step0] [ex_step1]
           ex_state1 tt (Tensor [1; 1; 1] [1%Z]) ex_mid_state
           tt (Tensor [1; 1; 1] [0%Z]) ex_final_state 1 [1]).
  - reflexivity.
  - reflexivity.
  - reflexivity.
  - reflexivity.
  - reflexivity.
  - reflexivity.
  - reflexivity.
Defined.

Lemma LSTMLayer_forward_ragged_outputs_witness :
  LSTMLayer_forward ex_delay_cell ex_sequence (VTensor ex_hidden) tt
  = (tt, Raise (RuntimeError ShapeMismatch)) ∧
  LSTMLayer_forward (logging ex_delay_cell) ex_sequence (VTensor ex_hidden) (tt, [])
  = ((tt, [(VTensor ex_step0, VTensor ex_hidden);
           (VTensor ex_step1, VTensor ex_step0)]),
     Raise (RuntimeError ShapeMismatch)) ∧
  length [(VTensor ex_step0, VTensor ex_hidden);
          (VTensor ex_step1, VTensor ex_step0)]
  = length [ex_step0; ex_step1].
Proof.
  apply (LSTMLayer_forward_ragged_outputs ex_delay_cell tt ex_sequence
           [ex_step0; ex_step1] (VTensor ex_hidden)
           [(VTensor ex_step0, VTensor ex_hidden);
            (VTensor ex_step1, VTensor ex_step0)]
           ex_hidden [ex_step0] (VTensor ex_step1) tt 1 [2]).
  - reflexivity.
  - eapply threaded_step; [reflexivity|reflexivity|].
    eapply threaded_step; [reflexivity|reflexivity|].
    apply threaded_nil.
  - reflexivity.
  - intros Hall. apply Forall_cons_1 in Hall as [E _]. discriminate E.
Defined.

Lemma LSTMLayer_forward_echo_witness :
  LSTMLayer_forward echo_cell ex_sequence ex_state1 tt
  = (tt, Ok (VTuple [VTensor ex_sequence; ex_state1])).
Proof.
  apply (LSTMLayer_forward_echo ex_sequence ex_state1 tt 1 1 [1]).
  - reflexivity.
  - reflexivity.
Defined.

Lemma LSTMLayer_on_LSTMCell_returns_witness :
  ∃ o ts h' c',
    LSTMLayer_forward (LSTMCell_call ex_globals1 ex_cell1)
      (Tensor [1; 2; 1] [3; -4]%Z)
      (VTuple [VTensor (Tensor [1; 1] [0%Z]); VTensor (Tensor [1; 1] [1%Z])]) tt
    = (tt, Ok (VTuple [VTensor o; VTuple [VTensor h'; VTensor c']])) ∧
    shape o = [1; 2; 1] ∧ shape h' = [1; 1] ∧ shape c' = [1; 1] ∧
    unbind1 o = Ok ts ∧ length ts = 2 ∧ last ts = Some h'.
Proof.
  apply (LSTMLayer_on_LSTMCell_returns ex_globals1 1 1 1 ex_cell1
           (Tensor [1; 1] [2%Z]) 1 [3; -4]%Z).
  - repeat split; reflexivity.
  - reflexivity.
  - reflexivity.
  - reflexivity.
  - reflexivity.
Defined.

(** * The layer on the cell of the notebook *)

(** C4: the layer on [LSTMCell], run with the globals the notebook
    defines, on a sequence with a first step of the configured width and
    on a state pair. The cell is called once, on the first input with the
    initial state; that call raises [NameError] on line 177 and the layer
    raises with it: the later steps are never run, nothing is collected
    and no state comes back, however many steps the sequence has. *)
Theorem LSTMLayer_forward_stops_at_the_first_step {R} `{Scalar R} D Hd
    (self : LSTMCell R) input x xs lead hs cs :
  LSTMCell_wf D Hd self → unbind1 input = Ok (x :: xs) → shape x = lead ++ [D] →
  LSTMLayer_forward (LSTMCell_call notebook_globals self) input
    (VTuple [hs; cs]) tt
  = (tt, Raise (NameError "previous_hidden")) ∧
  LSTMLayer_forward (logging (LSTMCell_call notebook_globals self)) input
    (VTuple [hs; cs]) (tt, [])
  = ((tt, [(VTensor x, VTuple [hs; cs])]), Raise (NameError "previous_hidden")).
Proof.
  intros [Hin _] Hxs Hx.
  destruct (linear_ok D (4 * Hd) _ x lead Hin Hx) as (a & Ha & _).
  assert (LSTMCell_call notebook_globals self (VTensor x) (VTuple [hs; cs]) tt
          = (tt, Raise (NameError "previous_hidden"))) as Hcall.
  { unfold LSTMCell_call, lift, LSTMCell_forward.
    cbn [unpack2 mbind res_bind Linear_call]. rewrite Ha. cbn [mbind res_bind].
    by rewrite notebook_globals_previous_hidden. }
  split.
  - rewrite (LSTMLayer_forward_unfold _ _ (x :: xs)) by done.
    cbn [length seq for_loop]. unfold mbind, py_bind.
    rewrite (loop_body_at _ _ _ x) by done. by rewrite Hcall.
  - rewrite (LSTMLayer_forward_unfold _ _ (x :: xs)) by done.
    cbn [length seq for_loop]. unfold mbind, py_bind.
    rewrite (loop_body_at _ _ _ x) by done.
    unfold logging. cbn [fst snd app]. by rewrite Hcall.
Qed.

Lemma LSTMLayer_forward_stops_at_the_first_step_witness :
  LSTMLayer_forward (LSTMCell_call notebook_globals ex_cell) ex_sequence
    (VTuple [VTensor ex_hidden; VTensor ex_memory]) tt
  = (tt, Raise (NameError "previous_hidden")) ∧
  LSTMLayer_forward (logging (LSTMCell_call notebook_globals ex_cell))
    ex_sequence (VTuple [VTensor ex_hidden; VTensor ex_memory]) (tt, [])
  = ((tt, [(VTensor ex_step0, VTuple [VTensor ex_hidden; VTensor ex_memory])]),
     Raise (NameError "previous_hidden")).
Proof.
  apply (LSTMLayer_forward_stops_at_the_first_step 1 2 ex_cell ex_sequence
           ex_step0 [ex_step1] [1]).
  - repeat split; reflexivity.
  - reflexivity.
  - reflexivity.
Defined.
